(** * Shallow embedding of [train.py] (C3D video-classification training loop)

    The orchestration of [train_model] is modelled as a state and error monad
    over a [World] holding the checkpoint directory ([save_dir/models]), the
    prediction dumps ([save_dir/predictions]), the SummaryWriter scalar log
    and the mutable model / optimizer / scheduler state.  The numerical
    collaborators (C3D forward pass, softmax, CrossEntropyLoss, autograd,
    Adam, the video dataset and the sampler's random keys) are the fields of
    the record [Externals]; everything the script itself does is written out.
    Probabilities and losses are exact rationals. *)

From Stdlib Require Import QArith Lqa List Lia.
From stdpp Require Import base list gmap strings pretty.
From Stdlib Require Import Ascii.
Import ListNotations.

(** ** Data model *)

Record tensor := mk_tensor { shape : list nat; values : list Q }.

(** [model.state_dict()]: an ordered map from parameter names to tensors. *)
Definition state_dict := list (string * tensor).

(** [optimizer.state_dict()]: parameter-group sizes and per-parameter state. *)
Record OptState := mk_opt { param_groups : list nat; opt_state : state_dict }.

Record ModelState := mk_ms {
  params : state_dict;          (* model parameters *)
  opt : OptState;               (* Adam internal state *)
  grads : option state_dict;    (* p.grad: None after optimizer.zero_grad() *)
  training : bool;              (* model.train() / model.eval() *)
  sched_epoch : nat             (* CosineAnnealingLR.last_epoch *)
}.

(** The dictionary given to [torch.save]. *)
Record Checkpoint := mk_ckpt {
  ck_epoch : nat;               (* 'epoch' *)
  ck_state_dict : state_dict;   (* 'state_dict' *)
  ck_opt_dict : OptState        (* 'opt_dict' *)
}.

Inductive cell := CStr (s : string) | CInt (n : nat) | CNum (q : Q).
Definition csv := list (list cell).

Record World := mk_world {
  ckpts : gmap string Checkpoint;        (* files under save_dir/models *)
  csvs : gmap string csv;                (* files under save_dir/predictions *)
  scalars : list (string * Q * nat);     (* writer.add_scalar(tag, value, step) *)
  ms : ModelState
}.

Definition set_ms (m : ModelState) (w : World) : World :=
  mk_world (ckpts w) (csvs w) (scalars w) m.
Definition set_ckpts (c : gmap string Checkpoint) (w : World) : World :=
  mk_world c (csvs w) (scalars w) (ms w).
Definition set_csvs (c : gmap string csv) (w : World) : World :=
  mk_world (ckpts w) c (scalars w) (ms w).
Definition set_scalars (s : list (string * Q * nat)) (w : World) : World :=
  mk_world (ckpts w) (csvs w) s (ms w).

(** Exceptions that end the script. *)
Inductive err :=
| FileNotFoundError        (* torch.load of a missing file *)
| LoadStateDictError       (* model.load_state_dict: missing/unexpected key, shape mismatch *)
| OptimizerGroupError      (* optimizer.load_state_dict: parameter groups differ *)
| ZeroDivisionError        (* Python / or % by zero *)
| ValueError               (* DataLoader(shuffle=True) on an empty dataset *)
| AucUndefined.            (* roc_auc_score: y_true does not hold both classes *)

(** ** State and error monad *)

Definition M (A : Type) := World -> World * (err + A).
Definition ret {A} (x : A) : M A := fun w => (w, inr x).
Definition bind {A B} (m : M A) (k : A -> M B) : M B :=
  fun w => match m w with
           | (w', inl e) => (w', inl e)
           | (w', inr x) => k x w'
           end.
Definition raise {A} (e : err) : M A := fun w => (w, inl e).
Definition get : M World := fun w => (w, inr w).
Definition modify (f : World -> World) : M unit := fun w => (f w, inr tt).

Notation "x <-- m ;; k" := (bind m (fun x => k))
  (at level 100, m at next level, right associativity).
Notation "m ;;; k" := (bind m (fun _ : unit => k))
  (at level 100, right associativity).

(** ** Configuration (module-level constants of the script) *)

Record Config := mk_cfg {
  save_dir : string;
  num_epochs : nat;      (* nEpochs *)
  resume_epoch : nat;
  useTest : bool;
  test_interval : nat;   (* nTestInterval *)
  save_epoch : nat       (* snapshot *)
}.

Definition modelName : string := "C3D".
Definition dataset_name : string := "hmdb51".
Definition saveName : string := modelName +:+ "-" +:+ dataset_name.

Inductive phase := Train | Val | Test.

Definition phase_name (ph : phase) : string :=
  match ph with Train => "train" | Val => "val" | Test => "test" end.

Definition clip := list Q.
Definition sample := (clip * nat)%type.

(** External collaborators, treated as black boxes. *)
Record Externals := mk_ext {
  dataset : phase -> list sample;                 (* VideoDataset(split=...) *)
  rng : nat -> nat -> nat;                        (* sampler key of sample i at epoch e *)
  net_forward : state_dict -> bool -> clip -> list Q;   (* model(inputs), per sample *)
  softmax : list Q -> list Q;                     (* nn.Softmax(dim=1), per row *)
  criterion : list (list Q) -> list nat -> Q;     (* CrossEntropyLoss (batch mean) *)
  backward : state_dict -> bool -> list clip -> list nat -> state_dict;  (* loss.backward() *)
  adam_step : nat -> state_dict -> OptState -> state_dict -> state_dict * OptState;
  init_params : state_dict;                       (* C3D(num_classes=2) *)
  init_opt : OptState                             (* optim.Adam(model.parameters()) *)
}.

(** ** DataLoader *)

Fixpoint insert_by_key {A} (k : nat) (x : A) (l : list (nat * A)) : list (nat * A) :=
  match l with
  | [] => [(k, x)]
  | (k', y) :: t => if k <=? k' then (k, x) :: l else (k', y) :: insert_by_key k x t
  end.

(** [shuffle=True]: a random permutation, as a sort on random keys. *)
Definition shuffle {A} (keys : nat -> nat) (l : list A) : list A :=
  map snd (fold_right (fun ix acc => insert_by_key (keys (fst ix)) (snd ix) acc) []
             (combine (seq 0 (length l)) l)).

Fixpoint chunks {A} (bs fuel : nat) (l : list A) : list (list A) :=
  match fuel with
  | 0 => []
  | S f => match l with
           | [] => []
           | _ :: _ => firstn bs l :: chunks bs f (skipn bs l)
           end
  end.

(** [DataLoader(..., batch_size=bs)]: consecutive batches, last one possibly short. *)
Definition DataLoader {A} (bs : nat) (l : list A) : list (list A) := chunks bs (length l) l.

(** ** Metrics (the sklearn collaborators) *)

Definition Q_of_nat (n : nat) : Q := inject_Z (Z.of_nat n).
Definition Qltb (a b : Q) : bool := negb (Qle_bool b a).

(** [torch.max(probs, 1)[1]] on one row: index of the first maximal entry. *)
Fixpoint argmax_go (i best : nat) (bv : Q) (l : list Q) : nat :=
  match l with
  | [] => best
  | x :: t => if Qltb bv x then argmax_go (S i) i x t else argmax_go (S i) best bv t
  end.
Definition argmax (row : list Q) : nat :=
  match row with [] => 0 | x :: t => argmax_go 1 0 x t end.

(** [1 if p > 0.5 else 0] *)
Definition thr (p : Q) : nat := if Qltb (1 # 2) p then 1 else 0.

Definition count_correct (preds labels : list nat) : nat :=
  length (List.filter (fun pl => fst pl =? snd pl) (combine preds labels)).

Definition pair_score (p n : Q) : Q :=
  if Qltb n p then 1%Q else if Qeq_bool p n then (1 # 2)%Q else 0%Q.

(** [roc_auc_score(y_true, y_score)] for binary labels: raises (here [None])
    when [y_true] does not contain both classes. *)
Definition roc_auc_score (labels : list nat) (probs : list Q) : option Q :=
  if existsb (Nat.eqb 0) labels && existsb (Nat.eqb 1) labels
     && forallb (fun l => l <=? 1) labels then
    let rows := combine labels probs in
    let pos := map snd (List.filter (fun r => fst r =? 1) rows) in
    let neg := map snd (List.filter (fun r => fst r =? 0) rows) in
    let score := fold_right Qplus 0%Q (map (fun p => fold_right Qplus 0%Q (map (pair_score p) neg)) pos) in
    Some (score / (Q_of_nat (length pos) * Q_of_nat (length neg)))%Q
  else None.

(** [recall_score(y_true, y_pred, pos_label=pos)]; zero_division gives 0. *)
Definition recall_score (labels preds : list nat) (pos : nat) : Q :=
  let actual := length (List.filter (Nat.eqb pos) labels) in
  let tp := length (List.filter (fun lp => (fst lp =? pos) && (snd lp =? pos)) (combine labels preds)) in
  if actual =? 0 then 0%Q else (Q_of_nat tp / Q_of_nat actual)%Q.

(** ** Serialisation: checkpoint and prediction-dump paths *)

(** [os.path.join(save_dir, 'models', saveName + '_epoch-' + str(epoch) + '.pth.tar')] *)
Definition ckpt_path (sd : string) (e : nat) : string :=
  sd +:+ "/models/" +:+ saveName +:+ "_epoch-" +:+ pretty e +:+ ".pth.tar".

(** [os.path.join(save_dir, 'predictions', f'{phase}_epoch_{epoch}.csv')] *)
Definition dump_path (sd : string) (ph : string) (e : nat) : string :=
  sd +:+ "/predictions/" +:+ ph +:+ "_epoch_" +:+ pretty e +:+ ".csv".

Definition dump_row (lp : nat * Q) : list cell := [CInt (fst lp); CNum (snd lp)].

(** Contents written by [save_to_csv]: header, then [zip(labels, probs)]. *)
Definition csv_rows (labels : list nat) (probs : list Q) : csv :=
  [CStr "TrueLabel"; CStr "Probability"] :: map dump_row (combine labels probs).

(** [save_to_csv(epoch, phase, labels, probs, save_dir)] (lines 56-67);
    mode 'w' replaces any earlier file. *)
Definition save_to_csv (e : nat) (ph : string) (labels : list nat) (probs : list Q)
    (sd : string) : M unit :=
  modify (fun w => set_csvs (<[dump_path sd ph e := csv_rows labels probs]> (csvs w)) w).

Definition add_scalar (tag : string) (v : Q) (step : nat) : M unit :=
  modify (fun w => set_scalars (scalars w ++ [(tag, v, step)]) w).

Definition loss_tag (ph : string) : string := "data/" +:+ ph +:+ "_loss_epoch".
Definition acc_tag (ph : string) : string := "data/" +:+ ph +:+ "_acc_epoch".
Definition auc_tag (ph : string) : string := "data/" +:+ ph +:+ "_auc_epoch".
Definition sens_tag (ph : string) : string := "data/" +:+ ph +:+ "_sensitivity_epoch".
Definition spec_tag (ph : string) : string := "data/" +:+ ph +:+ "_specificity_epoch".

(** ** Per-phase accumulators *)

Record running := mk_running {
  running_loss : Q;
  running_corrects : nat;
  running_probs : list Q;
  running_labels : list nat
}.
Definition running0 : running := mk_running 0%Q 0 [] [].

(** What one loop iteration observes: [loss.item()], [inputs.size(0)],
    the softmax rows and the labels of the batch. *)
Record batch_obs := mk_obs {
  ob_loss : Q;
  ob_size : nat;
  ob_probs : list (list Q);
  ob_labels : list nat
}.

(** Lines 136-140 / 197-201. *)
Definition accumulate (r : running) (o : batch_obs) : running :=
  mk_running (running_loss r + ob_loss o * Q_of_nat (ob_size o))%Q
             (running_corrects r + count_correct (map argmax (ob_probs o)) (ob_labels o))
             (running_probs r ++ map (fun p => nth 1 p 0%Q) (ob_probs o))
             (running_labels r ++ ob_labels o).

Fixpoint run_batches (step : ModelState -> list sample -> ModelState * batch_obs)
    (m : ModelState) (r : running) (bs : list (list sample))
    : ModelState * running * list batch_obs :=
  match bs with
  | [] => (m, r, [])
  | b :: t =>
      let '(m', o) := step m b in
      let '(m'', r', os) := run_batches step m' (accumulate r o) t in
      (m'', r', o :: os)
  end.

(** Lines 142-167 / 203-221: metrics, dump, scalars.  [size] is
    [trainval_sizes[phase]] or [test_size]. *)
Definition phase_results (sd : string) (ph : string) (e size : nat) (r : running) : M unit :=
  if size =? 0 then raise ZeroDivisionError else
  let epoch_loss := (running_loss r / Q_of_nat size)%Q in
  let epoch_acc := (Q_of_nat (running_corrects r) / Q_of_nat size)%Q in
  match roc_auc_score (running_labels r) (running_probs r) with
  | None => raise AucUndefined
  | Some epoch_auc =>
      let preds := map thr (running_probs r) in
      let epoch_sensitivity := recall_score (running_labels r) preds 1 in
      let epoch_specificity := recall_score (running_labels r) preds 0 in
      save_to_csv e ph (running_labels r) (running_probs r) sd ;;;
      add_scalar (loss_tag ph) epoch_loss e ;;;
      add_scalar (acc_tag ph) epoch_acc e ;;;
      add_scalar (auc_tag ph) epoch_auc e ;;;
      add_scalar (sens_tag ph) epoch_sensitivity e ;;;
      add_scalar (spec_tag ph) epoch_specificity e
  end.

(** ** Resuming: [model.load_state_dict] and [optimizer.load_state_dict] *)

Fixpoint sd_lookup (k : string) (sd : state_dict) : option tensor :=
  match sd with
  | [] => None
  | (k', t) :: rest => if String.eqb k k' then Some t else sd_lookup k rest
  end.

Fixpoint load_entries (model_sd ckpt_sd : state_dict) : option state_dict :=
  match model_sd with
  | [] => Some []
  | (k, t) :: rest =>
      match sd_lookup k ckpt_sd with
      | Some t' =>
          if bool_decide (shape t' = shape t) then
            match load_entries rest ckpt_sd with
            | Some rest' => Some ((k, t') :: rest')
            | None => None
            end
          else None
      | None => None
      end
  end.

(** Strict loading: no unexpected key, every model key present with its shape. *)
Definition load_state_dict (model_sd ckpt_sd : state_dict) : option state_dict :=
  if forallb (fun kt => bool_decide (is_Some (sd_lookup (fst kt) model_sd))) ckpt_sd
  then load_entries model_sd ckpt_sd else None.

Definition opt_load_state_dict (cur saved : OptState) : option OptState :=
  if bool_decide (param_groups cur = param_groups saved) then Some saved else None.

Section Orchestrator.

Variable X : Externals.

Definition zero_grad (m : ModelState) : ModelState :=
  mk_ms (params m) (opt m) None (training m) (sched_epoch m).
Definition model_train (m : ModelState) : ModelState :=
  mk_ms (params m) (opt m) (grads m) true (sched_epoch m).
Definition model_eval (m : ModelState) : ModelState :=
  mk_ms (params m) (opt m) (grads m) false (sched_epoch m).
Definition scheduler_step (m : ModelState) : ModelState :=
  mk_ms (params m) (opt m) (grads m) (training m) (S (sched_epoch m)).

(** [loss.backward(); optimizer.step()] *)
Definition backward_step (m : ModelState) (inputs : list clip) (labels : list nat) : ModelState :=
  let g := backward X (params m) (training m) inputs labels in
  let '(p', o') := adam_step X (sched_epoch m) (params m) (opt m) g in
  mk_ms p' o' (Some g) (training m) (sched_epoch m).

(** Loop body of the train/val phases, lines 118-140.  Forward passes with
    and without [torch.no_grad()] compute the same outputs. *)
Definition trainval_step (ph : phase) (m : ModelState) (b : list sample) : ModelState * batch_obs :=
  let inputs := map fst b in
  let labels := map snd b in
  let m1 := zero_grad m in
  let outputs := map (net_forward X (params m1) (training m1)) inputs in
  let probs := map (softmax X) outputs in
  let loss := criterion X outputs labels in
  let m2 := match ph with Train => backward_step m1 inputs labels | _ => m1 end in
  (m2, mk_obs loss (length inputs) probs labels).

(** Loop body of the test pass, lines 186-201. *)
Definition test_step (m : ModelState) (b : list sample) : ModelState * batch_obs :=
  let inputs := map fst b in
  let labels := map snd b in
  let outputs := map (net_forward X (params m) (training m)) inputs in
  let probs := map (softmax X) outputs in
  let loss := criterion X outputs labels in
  (m, mk_obs loss (length inputs) probs labels).

(** The loaders of lines 95-97 (batch_size=4; only the train loader shuffles).
    Building the shuffling train loader fails on an empty train split; that
    happens once, before the epoch loop, in [build_loaders] below. *)
Definition loader (ph : phase) (e : nat) : list (list sample) :=
  match ph with
  | Train => DataLoader 4 (shuffle (rng X e) (dataset X Train))
  | _ => DataLoader 4 (dataset X ph)
  end.

(** Lines 112-116: [scheduler.step(); model.train()] or [model.eval()]. *)
Definition enter_phase (ph : phase) (m : ModelState) : ModelState :=
  match ph with
  | Train => model_train (scheduler_step m)
  | _ => model_eval m
  end.

(** One iteration of [for phase in ['train', 'val']], lines 105-167. *)
Definition trainval_phase (cfg : Config) (ph : phase) (e : nat) : M unit :=
  w <-- get ;;
  let m1 := enter_phase ph (ms w) in
  let '(m2, r, _) := run_batches (trainval_step ph) m1 running0 (loader ph e) in
  modify (set_ms m2) ;;;
  phase_results (save_dir cfg) (phase_name ph) e (length (dataset X ph)) r.

(** Lines 169-175. *)
Definition save_checkpoint (cfg : Config) (e : nat) : M unit :=
  if save_epoch cfg =? 0 then raise ZeroDivisionError else
  if e mod save_epoch cfg =? save_epoch cfg - 1 then
    modify (fun w => set_ckpts (<[ckpt_path (save_dir cfg) e :=
                                   mk_ckpt (e + 1) (params (ms w)) (opt (ms w))]> (ckpts w)) w)
  else ret tt.

(** Lines 178-221. *)
Definition test_pass (cfg : Config) (e : nat) : M unit :=
  w <-- get ;;
  let m1 := model_eval (ms w) in
  let '(m2, r, _) := run_batches test_step m1 running0 (loader Test e) in
  modify (set_ms m2) ;;;
  phase_results (save_dir cfg) "test" e (length (dataset X Test)) r.

(** Line 177: [useTest and epoch % test_interval == (test_interval - 1)]. *)
Definition maybe_test (cfg : Config) (e : nat) : M unit :=
  if useTest cfg then
    if test_interval cfg =? 0 then raise ZeroDivisionError else
    if e mod test_interval cfg =? test_interval cfg - 1 then test_pass cfg e else ret tt
  else ret tt.

(** Body of [for epoch in range(resume_epoch, num_epochs)], lines 104-221. *)
Definition run_epoch (cfg : Config) (e : nat) : M unit :=
  trainval_phase cfg Train e ;;;
  trainval_phase cfg Val e ;;;
  save_checkpoint cfg e ;;;
  maybe_test cfg e.

Fixpoint run_epochs (cfg : Config) (es : list nat) : M unit :=
  match es with
  | [] => ret tt
  | e :: rest => run_epoch cfg e ;;; run_epochs cfg rest
  end.

(** The file loaded when resuming, lines 77-80. *)
Definition resume_path (cfg : Config) : option string :=
  if resume_epoch cfg =? 0 then None
  else Some (ckpt_path (save_dir cfg) (resume_epoch cfg - 1)).

(** Lines 80-85: torch.load, then the two load_state_dict calls. *)
Definition load_checkpoint (path : string) : M unit :=
  w <-- get ;;
  match ckpts w !! path with
  | None => raise FileNotFoundError
  | Some c =>
      match load_state_dict (params (ms w)) (ck_state_dict c) with
      | None => raise LoadStateDictError
      | Some sd =>
          let m := ms w in
          modify (set_ms (mk_ms sd (opt m) (grads m) (training m) (sched_epoch m))) ;;;
          match opt_load_state_dict (opt m) (ck_opt_dict c) with
          | None => raise OptimizerGroupError
          | Some o => modify (set_ms (mk_ms sd o (grads m) (training m) (sched_epoch m)))
          end
      end
  end.

Definition fresh_model : ModelState := mk_ms (init_params X) (init_opt X) None true 0.

(** Lines 95-97: the three DataLoaders are built once, before the epoch
    loop.  [shuffle=True] gives the train loader a RandomSampler, whose
    constructor raises ValueError when the dataset is empty
    (num_samples=0); the sequential samplers of the val and test loaders
    accept an empty dataset.  Lines 99-101 only take lengths. *)
Definition build_loaders : M unit :=
  match dataset X Train with
  | [] => raise ValueError
  | _ :: _ => ret tt
  end.

(** [train_model()]: build model and optimizer, resume if asked, build the
    loaders, run the epochs of [range(resume_epoch, num_epochs)]. *)
Definition train_model (cfg : Config) : M unit :=
  modify (set_ms fresh_model) ;;;
  match resume_path cfg with
  | None => ret tt
  | Some path => load_checkpoint path
  end ;;;
  build_loaders ;;;
  run_epochs cfg (seq (resume_epoch cfg) (num_epochs cfg - resume_epoch cfg)).

End Orchestrator.

(** ** Concrete instances used by the witnesses and counterexamples *)

Definition demo_split (ph : phase) : list sample :=
  match ph with
  | Train => [([0; 3 # 4]%Q, 1); ([0; 1 # 4]%Q, 0); ([0; 2 # 3]%Q, 1)]
  | Val => [([0; 3 # 5]%Q, 1); ([0; 1 # 5]%Q, 0)]
  | Test => [([0; 4 # 5]%Q, 1); ([0; 1 # 3]%Q, 0)]
  end.

(** A test split holding label 0 only. *)
Definition demo_split_test0 (ph : phase) : list sample :=
  match ph with
  | Test => [([0; 4 # 5]%Q, 0); ([0; 1 # 3]%Q, 0)]
  | _ => demo_split ph
  end.

Definition demo_params : state_dict := [("conv1.weight", mk_tensor [2] [1; 2]%Q)].

Definition demo_ext_on (ds : phase -> list sample) : Externals :=
  mk_ext ds
    (fun e i => (e + i) mod 3)
    (fun _ _ x => x)
    (fun o => [1 - nth 1 o 0; nth 1 o 0]%Q)
    (fun outs labels => Q_of_nat (length labels) / 8)%Q
    (fun p _ _ _ => p)
    (fun _ p o g => (p, o))
    demo_params
    (mk_opt [1] []).

Definition demo_ext : Externals := demo_ext_on demo_split.

Definition demo_cfg (R N : nat) (ut : bool) : Config := mk_cfg "run/run_0" N R ut 1 1.

Definition demo_world : World :=
  mk_world ∅ ∅ [] (mk_ms [] (mk_opt [] []) None true 0).

(** A run directory holding only the checkpoint written at the end of epoch 1. *)
Definition demo_world_saved_1 : World :=
  mk_world {[ ckpt_path "run/run_0" 1 := mk_ckpt 2 demo_params (mk_opt [1] []) ]} ∅ []
           (mk_ms [] (mk_opt [] []) None true 0).

(** ** Specification-side readings of the logs *)

Definition Qsum (l : list Q) : Q := fold_right Qplus 0%Q l.
Definition sum_nat (l : list nat) : nat := fold_right Nat.add 0 l.

(** Per-batch contributions, as named in the spec. *)
Definition obs_p1 (o : batch_obs) : list Q := map (fun p => nth 1 p 0%Q) (ob_probs o).
Definition obs_corrects (o : batch_obs) : nat :=
  count_correct (map argmax (ob_probs o)) (ob_labels o).
Definition obs_wloss (o : batch_obs) : Q := (ob_loss o * Q_of_nat (ob_size o))%Q.

(** Accuracy recomputed from a prediction dump: rows whose thresholded
    probability ([p > 0.5]) equals the label, over the number of data rows. *)
Definition row_correct (row : list cell) : bool :=
  match row with
  | [CInt l; CNum p] => thr p =? l
  | _ => false
  end.
Definition dump_accuracy (c : csv) : Q :=
  (Q_of_nat (length (List.filter row_correct (tl c))) / Q_of_nat (length (tl c)))%Q.

Definition tags_of (ph : string) : list string :=
  [loss_tag ph; acc_tag ph; auc_tag ph; sens_tag ph; spec_tag ph].
Definition is_test_entry (x : string * Q * nat) : Prop := x.1.1 ∈ tags_of "test".

(** The batch loops of the phases. *)
Definition trainval_pass (X : Externals) (ph : phase) (e : nat) (m : ModelState) :=
  run_batches (trainval_step X ph) (enter_phase ph m) running0 (loader X ph e).
Definition test_loop (X : Externals) (e : nat) (m : ModelState) :=
  run_batches (test_step X) (model_eval m) running0 (loader X Test e).

Definition obs_ok (b : list sample) (o : batch_obs) : Prop :=
  ob_size o = length b /\ ob_labels o = map snd b /\ length (ob_probs o) = length b.

Definition binary_row (p : list Q) : Prop :=
  exists p0 p1, p = [p0; p1] /\ (p0 + p1 == 1)%Q.

(** Two model states that differ at most in their gradient buffers. *)
Definition same_but_grads (m m' : ModelState) : Prop :=
  params m = params m' /\ opt m = opt m' /\ training m = training m' /\
  sched_epoch m = sched_epoch m'.

(** Every checkpoint file of [w'] is either unchanged from [w] or is the
    file of some epoch [e] holding the state stored for epoch [e]. *)
Definition ckpts_keyed_by_epoch (sd : string) (w w' : World) : Prop :=
  forall k c, ckpts w' !! k = Some c ->
    ckpts w !! k = Some c \/ exists e, k = ckpt_path sd e /\ ck_epoch c = e + 1.

(** No test dump and no test-tagged scalar is added from [w] to [w']. *)
Definition no_test_output (sd : string) (w w' : World) : Prop :=
  (forall e, csvs w' !! dump_path sd "test" e = csvs w !! dump_path sd "test" e) /\
  exists added, scalars w' = scalars w ++ added /\ Forall (fun x => ~ is_test_entry x) added.

(** [m] only moves the world along the preorder [R]. *)
Definition preserves (R : World -> World -> Prop) {A} (m : M A) : Prop :=
  forall w w' r, m w = (w', r) -> R w w'.

(** Files present in [w] are still present in [w']. *)
Definition files_kept (w w' : World) : Prop :=
  (forall k, is_Some (ckpts w !! k) -> is_Some (ckpts w' !! k)) /\
  (forall k, is_Some (csvs w !! k) -> is_Some (csvs w' !! k)).

(** What a successful epoch e leaves in the run directory. *)
Definition epoch_outputs_in (cfg : Config) (e : nat) (w : World) : Prop :=
  is_Some (csvs w !! dump_path (save_dir cfg) "train" e) /\
  is_Some (csvs w !! dump_path (save_dir cfg) "val" e) /\
  ((e + 1) mod save_epoch cfg = 0 ->
     exists c, ckpts w !! ckpt_path (save_dir cfg) e = Some c /\ ck_epoch c = e + 1) /\
  (useTest cfg = true -> (e + 1) mod test_interval cfg = 0 ->
     is_Some (csvs w !! dump_path (save_dir cfg) "test" e)).

(** ** Run directory selection (module level, lines 40-50)

    [save_dir_root] is [root]; [entries] are the names in [root/run].  Names
    are byte strings: [sorted] compares them by code point, which on ASCII
    names is the byte order of [String.leb]. *)

(** [glob.has_magic]: the pattern characters '*', '?' and '['. *)
Definition has_magic (s : string) : bool :=
  existsb (fun c => Ascii.eqb c "*"%char || Ascii.eqb c "?"%char || Ascii.eqb c "["%char)
    (String.list_ascii_of_string s).

(** [glob.glob(os.path.join(save_dir_root, 'run', 'run_*'))] for a root
    with [has_magic root = false]: glob then lists the one directory
    [root/run] and keeps the names matching [run_*].  A root holding pattern
    characters is itself a pattern, matched against other directories; that
    case is outside this model, and every theorem below assumes
    [has_magic root = false]. *)
Definition glob_runs (root : string) (entries : list string) : list string :=
  map (fun n => root +:+ "/run/" +:+ n) (List.filter (String.prefix "run_") entries).

(** [sorted(...)], as an insertion sort on [String.leb]. *)
Fixpoint insert_str (x : string) (l : list string) : list string :=
  match l with
  | [] => [x]
  | y :: t => if String.leb x y then x :: l else y :: insert_str x t
  end.
Definition sorted_strs (l : list string) : list string := fold_right insert_str [] l.

(** [s.split('_')[-1]] *)
Fixpoint last_field_go (s cur : string) : string :=
  match s with
  | EmptyString => cur
  | String c t =>
      if Ascii.eqb c "_"%char then last_field_go t "" else last_field_go t (cur +:+ String c EmptyString)
  end.
Definition last_field (s : string) : string := last_field_go s "".

(** [int(s)] on an ASCII string: surrounding whitespace stripped, an
    optional sign, decimal digits with single underscores between them. *)
Definition py_space (c : ascii) : bool :=
  let n := nat_of_ascii c in ((9 <=? n) && (n <=? 13)) || ((28 <=? n) && (n <=? 32)).
Fixpoint drop_spaces (l : list ascii) : list ascii :=
  match l with
  | c :: t => if py_space c then drop_spaces t else l
  | [] => []
  end.
Definition strip (l : list ascii) : list ascii := rev (drop_spaces (rev (drop_spaces l))).
Definition digit_val (c : ascii) : option nat :=
  let n := nat_of_ascii c in if (48 <=? n) && (n <=? 57) then Some (n - 48) else None.
Fixpoint digits_val (l : list ascii) (acc : Z) (after_sep : bool) : option Z :=
  match l with
  | [] => if after_sep then None else Some acc
  | c :: t =>
      match digit_val c with
      | Some d => digits_val t (acc * 10 + Z.of_nat d)%Z false
      | None => if Ascii.eqb c "_"%char && negb after_sep then digits_val t acc true else None
      end
  end.
(** [None] is the [ValueError] of [int()]. *)
Definition py_int (s : string) : option Z :=
  match strip (String.list_ascii_of_string s) with
  | [] => None
  | c :: t =>
      if Ascii.eqb c "-"%char then option_map Z.opp (digits_val t 0 true)
      else if Ascii.eqb c "+"%char then digits_val t 0 true
      else digits_val (c :: t) 0 true
  end.

(** Lines 43-48: [run_id] from the last of the sorted run directories, plus
    one for a fresh run; [None] when [int()] raises. *)
Definition select_run_id (resume_epoch : nat) (root : string) (entries : list string) : option Z :=
  match last (sorted_strs (glob_runs root entries)) with
  | None => Some 0%Z
  | Some r =>
      match py_int (last_field r) with
      | None => None
      | Some k => Some (if resume_epoch =? 0 then (k + 1)%Z else k)
      end
  end.

(** Line 50: [save_dir]. *)
Definition run_dir (root : string) (run_id : Z) : string := root +:+ "/run/" +:+ "run_" +:+ pretty run_id.
(** The name [save_dir] gives the directory of run [n]. *)
Definition run_name (n : nat) : string := "run_" +:+ pretty n.

Definition last_is_max (l : list string) : Prop :=
  forall y m, In y l -> last l = Some m -> String.leb y m = true.

Definition no_underscore (s : string) : Prop :=
  ~ In "_"%char (String.list_ascii_of_string s).

(** The value a run of decimal digits denotes, read left to right. *)
Definition digit_step (a : Z) (c : ascii) : Z :=
  match digit_val c with Some d => (a * 10 + Z.of_nat d)%Z | None => a end.

(** * Proofs *)

(** ** Monad *)

Lemma bind_inr {A B} (m : M A) (k : A -> M B) w w1 x :
  m w = (w1, inr x) -> bind m k w = k x w1.
Proof. intros H. unfold bind. rewrite H. reflexivity. Qed.

Lemma bind_inl {A B} (m : M A) (k : A -> M B) w w1 e :
  m w = (w1, inl e) -> bind m k w = (w1, inl e).
Proof. intros H. unfold bind. rewrite H. reflexivity. Qed.

Lemma bind_inv {A B} (m : M A) (k : A -> M B) w w' r :
  bind m k w = (w', r) ->
  (exists e, m w = (w', inl e) /\ r = inl e) \/
  (exists w1 x, m w = (w1, inr x) /\ k x w1 = (w', r)).
Proof.
  unfold bind. destruct (m w) as [w1 [e|x]] eqn:Hm.
  - intros H. inversion H; subst. left. eauto.
  - intros H. right. eauto.
Qed.

(** ** DataLoader *)

Lemma concat_chunks {A} bs fuel (l : list A) :
  0 < bs -> length l <= fuel -> concat (chunks bs fuel l) = l.
Proof.
  intros Hbs. revert l. induction fuel as [|f IH]; intros l Hl.
  - destruct l; simpl in *; [reflexivity | lia].
  - destruct l as [|a t]; [reflexivity|]. cbn [chunks concat].
    rewrite IH.
    + apply firstn_skipn.
    + rewrite length_skipn. simpl in *. lia.
Qed.

Lemma concat_DataLoader {A} (l : list A) : concat (DataLoader 4 l) = l.
Proof. apply concat_chunks; lia. Qed.

Lemma insert_by_key_perm {A} k (x : A) l : insert_by_key k x l ≡ₚ (k, x) :: l.
Proof.
  induction l as [|[k' y] t IH]; simpl; [reflexivity|].
  destruct (k <=? k'); [reflexivity|].
  rewrite IH. apply perm_swap.
Qed.

Lemma map_snd_combine_seq {A} (l : list A) s : map snd (combine (seq s (length l)) l) = l.
Proof. revert s. induction l as [|a t IH]; intros s; simpl; [reflexivity|]. by rewrite IH. Qed.

Lemma shuffle_perm {A} keys (l : list A) : shuffle keys l ≡ₚ l.
Proof.
  unfold shuffle.
  assert (Hp : forall ps : list (nat * A),
    map snd (fold_right (fun ix acc => insert_by_key (keys (fst ix)) (snd ix) acc) [] ps)
      ≡ₚ map snd ps).
  { induction ps as [|[i x] ps IH]; simpl; [reflexivity|].
    etransitivity; [apply Permutation_map, insert_by_key_perm|]. simpl.
    apply perm_skip. exact IH. }
  etransitivity; [apply Hp|]. rewrite map_snd_combine_seq. reflexivity.
Qed.

Lemma loader_perm X ph e : concat (loader X ph e) ≡ₚ dataset X ph.
Proof.
  destruct ph; unfold loader; rewrite concat_DataLoader; [apply shuffle_perm | reflexivity..].
Qed.

Lemma loader_length X ph e : length (concat (loader X ph e)) = length (dataset X ph).
Proof. apply Permutation_length, loader_perm. Qed.

(** ** The batch loops *)

Lemma trainval_step_ok X ph m b : obs_ok b (snd (trainval_step X ph m b)).
Proof. unfold obs_ok, trainval_step. simpl. by rewrite !length_map. Qed.

Lemma test_step_ok X m b : obs_ok b (snd (test_step X m b)).
Proof. unfold obs_ok, test_step. simpl. by rewrite !length_map. Qed.

Lemma run_batches_spec step m r bs m' r' os :
  (forall m b, obs_ok b (snd (step m b))) ->
  run_batches step m r bs = (m', r', os) ->
  Forall2 obs_ok bs os /\ r' = fold_left accumulate os r.
Proof.
  intros Hok. revert m r m' r' os.
  induction bs as [|b t IH]; intros m r m' r' os H; simpl in H.
  - inversion H; subst. split; [constructor | reflexivity].
  - destruct (step m b) as [m1 o] eqn:Hs.
    destruct (run_batches step m1 (accumulate r o) t) as [[m2 r2] os2] eqn:Hr.
    inversion H; subst.
    destruct (IH _ _ _ _ _ Hr) as [HF ->]. split; [|reflexivity].
    constructor; [|exact HF].
    specialize (Hok m b). rewrite Hs in Hok. exact Hok.
Qed.

Lemma fold_accumulate os r :
  running_labels (fold_left accumulate os r) = running_labels r ++ concat (map ob_labels os) /\
  running_probs (fold_left accumulate os r) = running_probs r ++ concat (map obs_p1 os) /\
  running_corrects (fold_left accumulate os r) = running_corrects r + sum_nat (map obs_corrects os) /\
  (running_loss (fold_left accumulate os r) == running_loss r + Qsum (map obs_wloss os))%Q.
Proof.
  revert r. induction os as [|o t IH]; intros r; simpl.
  - rewrite !app_nil_r. split; [reflexivity|]. split; [reflexivity|].
    split; [lia|]. unfold Qsum; simpl. ring.
  - destruct (IH (accumulate r o)) as (H1 & H2 & H3 & H4).
    rewrite H1, H2, H3. simpl. rewrite !app_assoc.
    split; [reflexivity|]. split; [reflexivity|]. split; [unfold obs_corrects; lia|].
    rewrite H4. simpl. unfold Qsum, obs_wloss; simpl. ring.
Qed.

Lemma obs_concat bs os :
  Forall2 obs_ok bs os ->
  concat (map ob_labels os) = map snd (concat bs) /\
  length (concat (map obs_p1 os)) = length (concat bs) /\
  sum_nat (map ob_size os) = length (concat bs).
Proof.
  induction 1 as [|b o bs os (Hs & Hl & Hp) _ (IH1 & IH2 & IH3)]; simpl; [auto|].
  rewrite map_app, !length_app, IH1, IH2, IH3, Hl, Hs.
  unfold obs_p1. rewrite length_map, Hp. auto.
Qed.

(** ** End of a phase *)

Lemma phase_results_ok sd ph e size r w auc :
  size <> 0 ->
  roc_auc_score (running_labels r) (running_probs r) = Some auc ->
  phase_results sd ph e size r w =
    (mk_world (ckpts w)
       (<[dump_path sd ph e := csv_rows (running_labels r) (running_probs r)]> (csvs w))
       (scalars w ++
          [(loss_tag ph, (running_loss r / Q_of_nat size)%Q, e);
           (acc_tag ph, (Q_of_nat (running_corrects r) / Q_of_nat size)%Q, e);
           (auc_tag ph, auc, e);
           (sens_tag ph, recall_score (running_labels r) (map thr (running_probs r)) 1, e);
           (spec_tag ph, recall_score (running_labels r) (map thr (running_probs r)) 0, e)])
       (ms w), inr tt).
Proof.
  intros Hs Hauc. unfold phase_results.
  destruct (size =? 0) eqn:E; [apply Nat.eqb_eq in E; contradiction|].
  rewrite Hauc. unfold bind, save_to_csv, add_scalar, modify, set_scalars, set_csvs. cbn.
  rewrite <- !app_assoc. reflexivity.
Qed.

Lemma phase_results_err sd ph e size r w w' err :
  phase_results sd ph e size r w = (w', inl err) -> w' = w.
Proof.
  unfold phase_results. destruct (size =? 0).
  - intros H. by inversion H.
  - destruct (roc_auc_score _ _); [cbn; discriminate | intros H; by inversion H].
Qed.

Lemma phase_results_inv sd ph e size r w w' :
  phase_results sd ph e size r w = (w', inr tt) ->
  size <> 0 /\ exists auc, roc_auc_score (running_labels r) (running_probs r) = Some auc /\
    w' = mk_world (ckpts w)
       (<[dump_path sd ph e := csv_rows (running_labels r) (running_probs r)]> (csvs w))
       (scalars w ++
          [(loss_tag ph, (running_loss r / Q_of_nat size)%Q, e);
           (acc_tag ph, (Q_of_nat (running_corrects r) / Q_of_nat size)%Q, e);
           (auc_tag ph, auc, e);
           (sens_tag ph, recall_score (running_labels r) (map thr (running_probs r)) 1, e);
           (spec_tag ph, recall_score (running_labels r) (map thr (running_probs r)) 0, e)])
       (ms w).
Proof.
  intros H. destruct (size =? 0) eqn:E.
  - unfold phase_results in H. rewrite E in H. discriminate.
  - apply Nat.eqb_neq in E.
    destruct (roc_auc_score (running_labels r) (running_probs r)) as [auc|] eqn:Ha.
    + rewrite (phase_results_ok _ _ _ _ _ _ auc E Ha) in H. inversion H. eauto.
    + unfold phase_results in H. rewrite Ha in H. destruct (size =? 0); discriminate.
Qed.

Lemma phase_results_frame sd ph e size r w w' res :
  phase_results sd ph e size r w = (w', res) -> ckpts w' = ckpts w /\ ms w' = ms w.
Proof.
  destruct res as [err|[]]; intros H.
  - apply phase_results_err in H. by subst.
  - apply phase_results_inv in H as (_ & auc & _ & ->). auto.
Qed.

Lemma trainval_phase_eq X cfg ph e w :
  trainval_phase X cfg ph e w =
    let '(m2, r, _) := trainval_pass X ph e (ms w) in
    phase_results (save_dir cfg) (phase_name ph) e (length (dataset X ph)) r (set_ms m2 w).
Proof.
  unfold trainval_phase, trainval_pass, bind, get. cbn.
  destruct (run_batches _ _ _ _) as [[m2 r] os]. reflexivity.
Qed.

Lemma test_pass_eq X cfg e w :
  test_pass X cfg e w =
    let '(m2, r, _) := test_loop X e (ms w) in
    phase_results (save_dir cfg) "test" e (length (dataset X Test)) r (set_ms m2 w).
Proof.
  unfold test_pass, test_loop, bind, get. cbn.
  destruct (run_batches _ _ _ _) as [[m2 r] os]. reflexivity.
Qed.

(** Shared core of the dump claims: the file written at the end of a phase. *)
Lemma phase_dump sd ph e bs os w w' :
  Forall2 obs_ok bs os ->
  phase_results sd ph e (length (concat bs)) (fold_left accumulate os running0) w = (w', inr tt) ->
  csvs w' !! dump_path sd ph e =
    Some ([CStr "TrueLabel"; CStr "Probability"] ::
          map dump_row (combine (map snd (concat bs)) (concat (map obs_p1 os)))) /\
  length (combine (map snd (concat bs)) (concat (map obs_p1 os))) = length (concat bs).
Proof.
  intros HF H. apply phase_results_inv in H as (_ & auc & _ & ->).
  destruct (fold_accumulate os running0) as (H1 & H2 & _).
  destruct (obs_concat _ _ HF) as (E1 & E2 & _).
  simpl in H1, H2. rewrite H1, H2, E1. cbn. rewrite lookup_insert_eq. split; [reflexivity|].
  rewrite length_combine, length_map. rewrite E2. apply Nat.min_id.
Qed.

Lemma trainval_pass_facts X ph e m m2 r os :
  trainval_pass X ph e m = (m2, r, os) ->
  Forall2 obs_ok (loader X ph e) os /\ r = fold_left accumulate os running0.
Proof. apply run_batches_spec. intros. apply trainval_step_ok. Qed.

Lemma test_loop_facts X e m m2 r os :
  test_loop X e m = (m2, r, os) ->
  Forall2 obs_ok (loader X Test e) os /\ r = fold_left accumulate os running0.
Proof. apply run_batches_spec. intros. apply test_step_ok. Qed.

(** ** C7 *)

(** C7: for every (epoch, phase) the prediction dump is the header row
    [TrueLabel, Probability] followed by one row per sample, in the order
    the loader yielded the samples in that epoch, each row holding the
    sample's label and the positive-class probability computed for it;
    the number of data rows is the size of the split. *)
Theorem prediction_dump_one_row_per_sample X cfg e w w' :
  (forall ph m2 r os,
     trainval_pass X ph e (ms w) = (m2, r, os) ->
     trainval_phase X cfg ph e w = (w', inr tt) ->
     exists rows,
       csvs w' !! dump_path (save_dir cfg) (phase_name ph) e =
         Some ([CStr "TrueLabel"; CStr "Probability"] :: rows) /\
       rows = map dump_row (combine (map snd (concat (loader X ph e)))
                                    (concat (map obs_p1 os))) /\
       length rows = length (dataset X ph)) /\
  (forall m2 r os,
     test_loop X e (ms w) = (m2, r, os) ->
     test_pass X cfg e w = (w', inr tt) ->
     exists rows,
       csvs w' !! dump_path (save_dir cfg) "test" e =
         Some ([CStr "TrueLabel"; CStr "Probability"] :: rows) /\
       rows = map dump_row (combine (map snd (concat (loader X Test e)))
                                    (concat (map obs_p1 os))) /\
       length rows = length (dataset X Test)).
Proof.
  split.
  - intros ph m2 r os Hp H.
    rewrite (trainval_phase_eq X cfg ph e w), Hp in H.
    destruct (trainval_pass_facts _ _ _ _ _ _ _ Hp) as [HF ->].
    rewrite <- (loader_length X ph e) in H.
    destruct (phase_dump _ _ _ _ _ _ _ HF H) as [H1 H2].
    eexists. split; [exact H1|]. split; [reflexivity|].
    rewrite length_map, H2. apply loader_length.
  - intros m2 r os Hp H.
    rewrite (test_pass_eq X cfg e w), Hp in H.
    destruct (test_loop_facts _ _ _ _ _ _ Hp) as [HF ->].
    rewrite <- (loader_length X Test e) in H.
    destruct (phase_dump _ _ _ _ _ _ _ HF H) as [H1 H2].
    eexists. split; [exact H1|]. split; [reflexivity|].
    rewrite length_map, H2. apply loader_length.
Qed.

Lemma prediction_dump_one_row_per_sample_witness :
  exists rows,
    csvs (fst (trainval_phase demo_ext (demo_cfg 0 1 true) Train 0 demo_world))
      !! dump_path "run/run_0" "train" 0 =
      Some ([CStr "TrueLabel"; CStr "Probability"] :: rows) /\
    length rows = 3.
Proof.
  destruct (trainval_pass demo_ext Train 0 (ms demo_world)) as [[m2 r] os] eqn:Hp.
  destruct (prediction_dump_one_row_per_sample demo_ext (demo_cfg 0 1 true) 0 demo_world
              (fst (trainval_phase demo_ext (demo_cfg 0 1 true) Train 0 demo_world)))
    as [H _].
  destruct (H Train m2 r os Hp) as (rows & H1 & _ & H3); [vm_compute; reflexivity|].
  exists rows. split; [exact H1 | exact H3].
Defined.

(** ** C6 *)

Lemma phase_loss sd ph e bs os w w' :
  Forall2 obs_ok bs os ->
  phase_results sd ph e (length (concat bs)) (fold_left accumulate os running0) w = (w', inr tt) ->
  exists l rest,
    scalars w' = scalars w ++ (loss_tag ph, l, e) :: rest /\
    (l == Qsum (map obs_wloss os) / Q_of_nat (length (concat bs)))%Q /\
    sum_nat (map ob_size os) = length (concat bs).
Proof.
  intros HF H. apply phase_results_inv in H as (_ & auc & _ & ->).
  destruct (fold_accumulate os running0) as (_ & _ & _ & H4).
  destruct (obs_concat _ _ HF) as (_ & _ & E3).
  do 2 eexists. split; [reflexivity|]. split; [|exact E3].
  rewrite H4. simpl. apply Qdiv_comp; [ring | reflexivity].
Qed.

(** C6: for every (epoch, split) the logged loss is the sum over the
    split's batches of (batch loss x batch size), divided by the split's
    sample count, where the batch sizes add up to that count; it is logged
    once, at the end of the phase. *)
Theorem logged_loss_weighted_mean X cfg e w w' :
  (forall ph m2 r os,
     trainval_pass X ph e (ms w) = (m2, r, os) ->
     trainval_phase X cfg ph e w = (w', inr tt) ->
     exists l rest,
       scalars w' = scalars w ++ (loss_tag (phase_name ph), l, e) :: rest /\
       (l == Qsum (map obs_wloss os) / Q_of_nat (length (dataset X ph)))%Q /\
       sum_nat (map ob_size os) = length (dataset X ph)) /\
  (forall m2 r os,
     test_loop X e (ms w) = (m2, r, os) ->
     test_pass X cfg e w = (w', inr tt) ->
     exists l rest,
       scalars w' = scalars w ++ (loss_tag "test", l, e) :: rest /\
       (l == Qsum (map obs_wloss os) / Q_of_nat (length (dataset X Test)))%Q /\
       sum_nat (map ob_size os) = length (dataset X Test)).
Proof.
  split.
  - intros ph m2 r os Hp H.
    rewrite (trainval_phase_eq X cfg ph e w), Hp in H.
    destruct (trainval_pass_facts _ _ _ _ _ _ _ Hp) as [HF ->].
    rewrite <- (loader_length X ph e) in *.
    exact (phase_loss _ _ _ _ _ _ _ HF H).
  - intros m2 r os Hp H.
    rewrite (test_pass_eq X cfg e w), Hp in H.
    destruct (test_loop_facts _ _ _ _ _ _ Hp) as [HF ->].
    rewrite <- (loader_length X Test e) in *.
    exact (phase_loss _ _ _ _ _ _ _ HF H).
Qed.

Lemma logged_loss_weighted_mean_witness :
  exists l rest,
    scalars (fst (trainval_phase demo_ext (demo_cfg 0 1 true) Val 0 demo_world)) =
      scalars demo_world ++ (loss_tag "val", l, 0) :: rest.
Proof.
  destruct (trainval_pass demo_ext Val 0 (ms demo_world)) as [[m2 r] os] eqn:Hp.
  destruct (logged_loss_weighted_mean demo_ext (demo_cfg 0 1 true) 0 demo_world
              (fst (trainval_phase demo_ext (demo_cfg 0 1 true) Val 0 demo_world)))
    as [H _].
  destruct (H Val m2 r os Hp) as (l & rest & H1 & _); [vm_compute; reflexivity|].
  exists l, rest. exact H1.
Defined.

(** ** C4 *)

Lemma argmax_binary p : binary_row p -> argmax p = thr (nth 1 p 0%Q).
Proof.
  intros (p0 & p1 & -> & Hs). unfold argmax, argmax_go, thr, Qltb. simpl.
  destruct (Qle_bool p1 p0) eqn:E1, (Qle_bool p1 (1 # 2)) eqn:E2; simpl; try reflexivity.
  - apply Qle_bool_iff in E1. exfalso.
    assert (~ (p1 <= 1 # 2))%Q as N by (intros N; apply Qle_bool_iff in N; congruence).
    apply N. lra.
  - apply Qle_bool_iff in E2. exfalso.
    assert (~ (p1 <= p0))%Q as N by (intros N; apply Qle_bool_iff in N; congruence).
    apply N. lra.
Qed.

Lemma count_correct_dump ls ps :
  length ls = length ps -> Forall binary_row ps ->
  count_correct (map argmax ps) ls =
  length (List.filter row_correct (map dump_row (combine ls (map (fun p => nth 1 p 0%Q) ps)))).
Proof.
  revert ps. induction ls as [|l ls IH]; intros [|p ps] Hl Hb; simpl in *; try lia.
  - reflexivity.
  - inversion Hb as [|? ? Hp Hps]; subst.
    unfold count_correct in *. simpl. rewrite (argmax_binary p Hp).
    destruct (thr (nth 1 p 0%Q) =? l); simpl; rewrite IH; auto.
Qed.

Lemma combine_app {A B} (l1 l2 : list A) (r1 r2 : list B) :
  length l1 = length r1 -> combine (l1 ++ l2) (r1 ++ r2) = combine l1 r1 ++ combine l2 r2.
Proof.
  revert r1. induction l1 as [|a l1 IH]; intros [|b r1] H; simpl in *; try lia; auto.
  rewrite IH; auto.
Qed.

Lemma dump_count os :
  Forall (fun o => length (ob_labels o) = length (ob_probs o) /\ Forall binary_row (ob_probs o)) os ->
  length (List.filter row_correct (map dump_row (combine (concat (map ob_labels os))
                                                    (concat (map obs_p1 os))))) =
  sum_nat (map obs_corrects os).
Proof.
  induction 1 as [|o os [Hl Hb] _ IH]; simpl; [reflexivity|].
  rewrite combine_app by (unfold obs_p1; rewrite length_map; exact Hl).
  rewrite map_app, List.filter_app, length_app, IH.
  unfold obs_corrects, obs_p1. rewrite count_correct_dump; auto.
Qed.

Lemma obs_ok_lengths bs os :
  Forall2 obs_ok bs os ->
  Forall (fun o => length (ob_labels o) = length (ob_probs o)) os.
Proof.
  induction 1 as [|b o bs os (_ & Hl & Hp) _ IH]; constructor; [|exact IH].
  rewrite Hl, Hp, length_map. reflexivity.
Qed.

Lemma phase_accuracy sd ph e bs os w w' :
  Forall2 obs_ok bs os ->
  Forall (fun o => Forall binary_row (ob_probs o)) os ->
  phase_results sd ph e (length (concat bs)) (fold_left accumulate os running0) w = (w', inr tt) ->
  exists c l rest,
    csvs w' !! dump_path sd ph e = Some c /\
    scalars w' = scalars w ++ (loss_tag ph, l, e) :: (acc_tag ph, dump_accuracy c, e) :: rest /\
    dump_accuracy c = (Q_of_nat (sum_nat (map obs_corrects os)) / Q_of_nat (length (concat bs)))%Q.
Proof.
  intros HF HB H.
  destruct (phase_dump _ _ _ _ _ _ _ HF H) as [Hc Hlen].
  apply phase_results_inv in H as (_ & auc & _ & Hw).
  destruct (fold_accumulate os running0) as (H1 & H2 & H3 & _).
  destruct (obs_concat _ _ HF) as (E1 & _ & _).
  assert (Hacc : dump_accuracy ([CStr "TrueLabel"; CStr "Probability"] ::
            map dump_row (combine (map snd (concat bs)) (concat (map obs_p1 os)))) =
          (Q_of_nat (sum_nat (map obs_corrects os)) / Q_of_nat (length (concat bs)))%Q).
  { unfold dump_accuracy. simpl tl. rewrite length_map, Hlen, <- E1, dump_count; [reflexivity|].
    apply Forall_and; split; [exact (obs_ok_lengths _ _ HF) | exact HB]. }
  eexists _, _, _. split; [exact Hc|]. split; [|exact Hacc].
  rewrite Hw. simpl. rewrite Hacc, H3. simpl. reflexivity.
Qed.

Lemma run_batches_forall (P : batch_obs -> Prop) step m r bs m' r' os :
  (forall m b, P (snd (step m b))) ->
  run_batches step m r bs = (m', r', os) -> Forall P os.
Proof.
  intros HP. revert m r m' r' os.
  induction bs as [|b t IH]; intros m r m' r' os H; simpl in H.
  - inversion H; subst. constructor.
  - destruct (step m b) as [m1 o] eqn:Hs.
    destruct (run_batches step m1 (accumulate r o) t) as [[m2 r2] os2] eqn:Hr.
    inversion H; subst. constructor; [|exact (IH _ _ _ _ _ Hr)].
    specialize (HP m b). rewrite Hs in HP. exact HP.
Qed.

Lemma probs_binary X inputs p :
  (forall p mode x, binary_row (softmax X (net_forward X p mode x))) ->
  forall mode, Forall binary_row (map (softmax X) (map (net_forward X p mode) inputs)).
Proof.
  intros Hbin mode. induction inputs as [|x t IH]; simpl; constructor; [apply Hbin | exact IH].
Qed.

Lemma trainval_step_binary X ph :
  (forall p mode x, binary_row (softmax X (net_forward X p mode x))) ->
  forall m b, Forall binary_row (ob_probs (snd (trainval_step X ph m b))).
Proof. intros Hbin m b. apply probs_binary, Hbin. Qed.

Lemma test_step_binary X :
  (forall p mode x, binary_row (softmax X (net_forward X p mode x))) ->
  forall m b, Forall binary_row (ob_probs (snd (test_step X m b))).
Proof. intros Hbin m b. apply probs_binary, Hbin. Qed.

(** C4: with the two-class network (each softmax row is [p0; p1] with
    p0 + p1 = 1), for every (epoch, phase) the accuracy recomputed from the
    prediction dump (rows whose [p > 0.5] prediction equals the label, over
    the number of rows) is exactly the logged accuracy, and both equal the
    number of samples whose argmax prediction equals the label divided by
    the size of the split. *)
Theorem dump_accuracy_matches_logged X cfg e w w' :
  (forall p mode x, binary_row (softmax X (net_forward X p mode x))) ->
  (forall ph m2 r os,
     trainval_pass X ph e (ms w) = (m2, r, os) ->
     trainval_phase X cfg ph e w = (w', inr tt) ->
     exists c l rest,
       csvs w' !! dump_path (save_dir cfg) (phase_name ph) e = Some c /\
       scalars w' = scalars w ++ (loss_tag (phase_name ph), l, e)
                                 :: (acc_tag (phase_name ph), dump_accuracy c, e) :: rest /\
       dump_accuracy c =
         (Q_of_nat (sum_nat (map obs_corrects os)) / Q_of_nat (length (dataset X ph)))%Q) /\
  (forall m2 r os,
     test_loop X e (ms w) = (m2, r, os) ->
     test_pass X cfg e w = (w', inr tt) ->
     exists c l rest,
       csvs w' !! dump_path (save_dir cfg) "test" e = Some c /\
       scalars w' = scalars w ++ (loss_tag "test", l, e)
                                 :: (acc_tag "test", dump_accuracy c, e) :: rest /\
       dump_accuracy c =
         (Q_of_nat (sum_nat (map obs_corrects os)) / Q_of_nat (length (dataset X Test)))%Q).
Proof.
  intros Hbin. split.
  - intros ph m2 r os Hp H.
    rewrite (trainval_phase_eq X cfg ph e w), Hp in H.
    pose proof (run_batches_forall (fun o => Forall binary_row (ob_probs o)) _ _ _ _ _ _ _
                  (trainval_step_binary X ph Hbin) Hp) as HB.
    destruct (trainval_pass_facts _ _ _ _ _ _ _ Hp) as [HF ->].
    rewrite <- (loader_length X ph e) in *.
    exact (phase_accuracy _ _ _ _ _ _ _ HF HB H).
  - intros m2 r os Hp H.
    rewrite (test_pass_eq X cfg e w), Hp in H.
    pose proof (run_batches_forall (fun o => Forall binary_row (ob_probs o)) _ _ _ _ _ _ _
                  (test_step_binary X Hbin) Hp) as HB.
    destruct (test_loop_facts _ _ _ _ _ _ Hp) as [HF ->].
    rewrite <- (loader_length X Test e) in *.
    exact (phase_accuracy _ _ _ _ _ _ _ HF HB H).
Qed.

Lemma dump_accuracy_matches_logged_witness :
  (forall p mode x, binary_row (softmax demo_ext (net_forward demo_ext p mode x))) /\
  exists c l rest,
    csvs (fst (trainval_phase demo_ext (demo_cfg 0 1 true) Val 0 demo_world))
      !! dump_path "run/run_0" "val" 0 = Some c /\
    scalars (fst (trainval_phase demo_ext (demo_cfg 0 1 true) Val 0 demo_world)) =
      scalars demo_world ++ (loss_tag "val", l, 0) :: (acc_tag "val", dump_accuracy c, 0) :: rest.
Proof.
  assert (Hbin : forall p mode x, binary_row (softmax demo_ext (net_forward demo_ext p mode x))).
  { intros p mode x. exists (1 - nth 1 x 0)%Q, (nth 1 x 0)%Q. split; [reflexivity | ring]. }
  split; [exact Hbin|].
  destruct (trainval_pass demo_ext Val 0 (ms demo_world)) as [[m2 r] os] eqn:Hp.
  destruct (dump_accuracy_matches_logged demo_ext (demo_cfg 0 1 true) 0 demo_world
              (fst (trainval_phase demo_ext (demo_cfg 0 1 true) Val 0 demo_world)) Hbin)
    as [H _].
  destruct (H Val m2 r os Hp) as (c & l & rest & H1 & H2 & _); [vm_compute; reflexivity|].
  exists c, l, rest. split; [exact H1 | exact H2].
Defined.

(** ** C9 and C10: the evaluation passes *)

Lemma test_val_step_agree X m m' b :
  same_but_grads m m' ->
  test_step X m b = (m, snd (trainval_step X Val m' b)) /\
  fst (trainval_step X Val m' b) = zero_grad m'.
Proof.
  intros (Hp & Ho & Ht & Hsc). unfold test_step, trainval_step. simpl.
  rewrite Hp, Ht. auto.
Qed.

Lemma test_val_batches_agree X bs : forall m m' r m1 r1 os1 m2 r2 os2,
  same_but_grads m m' ->
  run_batches (test_step X) m r bs = (m1, r1, os1) ->
  run_batches (trainval_step X Val) m' r bs = (m2, r2, os2) ->
  r1 = r2 /\ os1 = os2 /\ same_but_grads m1 m2.
Proof.
  induction bs as [|b t IH]; intros m m' r m1 r1 os1 m2 r2 os2 Hs H1 H2;
    cbn [run_batches] in H1, H2.
  - inversion H1; inversion H2; subst. auto.
  - destruct (test_val_step_agree X m m' b Hs) as [Ea Eb].
    rewrite Ea in H1.
    destruct (trainval_step X Val m' b) as [mb ob] eqn:Sb. simpl in Ea, Eb, H1. subst mb.
    destruct (run_batches (test_step X) m (accumulate r ob) t) as [[ma ra] osa] eqn:Ra.
    destruct (run_batches (trainval_step X Val) (zero_grad m') (accumulate r ob) t)
      as [[mc rc] osc] eqn:Rc.
    inversion H1; inversion H2; subst.
    assert (Hz : same_but_grads m (zero_grad m')).
    { destruct Hs as (? & ? & ? & ?). unfold zero_grad, same_but_grads. simpl. auto. }
    destruct (IH _ _ _ _ _ _ _ _ _ Hz Ra Rc) as (-> & -> & Hs'). auto.
Qed.

Lemma test_loop_keeps_model X m r bs m1 r1 os1 :
  run_batches (test_step X) m r bs = (m1, r1, os1) -> m1 = m.
Proof.
  revert m r m1 r1 os1. induction bs as [|b t IH]; intros m r m1 r1 os1 H;
    cbn [run_batches] in H.
  - by inversion H.
  - unfold test_step at 1 in H. cbn beta iota zeta in H.
    destruct (run_batches (test_step X) m _ t) as [[ma ra] osa] eqn:Ea.
    inversion H; subst. exact (IH _ _ _ _ _ Ea).
Qed.

(** C9: the test pass runs the validation procedure: from a model state
    differing at most in gradient buffers, its batch loop yields the same
    accumulators and per-batch observations as the validation loop, it
    enters the loop exactly as validation does ([model.eval()]), and it
    changes neither the learning-rate schedule nor the checkpoint files. *)
Theorem test_pass_as_validation X cfg e w w' res :
  (forall m m' r bs m1 r1 os1 m2 r2 os2,
     same_but_grads m m' ->
     run_batches (test_step X) m r bs = (m1, r1, os1) ->
     run_batches (trainval_step X Val) m' r bs = (m2, r2, os2) ->
     r1 = r2 /\ os1 = os2 /\ same_but_grads m1 m2) /\
  (forall m, enter_phase Val m = model_eval m) /\
  (test_pass X cfg e w = (w', res) ->
     sched_epoch (ms w') = sched_epoch (ms w) /\ ckpts w' = ckpts w).
Proof.
  split; [intros; eapply test_val_batches_agree; eauto|].
  split; [reflexivity|].
  intros H. rewrite (test_pass_eq X cfg e w) in H. unfold test_loop in H.
  destruct (run_batches (test_step X) (model_eval (ms w)) running0 (loader X Test e))
    as [[m2 r] os] eqn:E.
  apply test_loop_keeps_model in E. subst m2.
  apply phase_results_frame in H as [-> ->]. simpl. auto.
Qed.

Lemma test_pass_as_validation_witness :
  sched_epoch (ms (fst (test_pass demo_ext (demo_cfg 0 1 true) 0 demo_world))) =
    sched_epoch (ms demo_world) /\
  ckpts (fst (test_pass demo_ext (demo_cfg 0 1 true) 0 demo_world)) = ckpts demo_world.
Proof.
  destruct (test_pass_as_validation demo_ext (demo_cfg 0 1 true) 0 demo_world
              (fst (test_pass demo_ext (demo_cfg 0 1 true) 0 demo_world))
              (snd (test_pass demo_ext (demo_cfg 0 1 true) 0 demo_world)))
    as (_ & _ & H).
  apply H. vm_compute. reflexivity.
Defined.

Lemma val_loop_keeps_params X m r bs m1 r1 os1 :
  run_batches (trainval_step X Val) m r bs = (m1, r1, os1) ->
  params m1 = params m /\ opt m1 = opt m.
Proof.
  revert m r m1 r1 os1. induction bs as [|b t IH]; intros m r m1 r1 os1 H;
    cbn [run_batches] in H.
  - by inversion H.
  - destruct (trainval_step X Val m b) as [mb ob] eqn:Sb.
    assert (Emb : mb = zero_grad m) by (unfold trainval_step in Sb; simpl in Sb; congruence).
    destruct (run_batches (trainval_step X Val) mb (accumulate r ob) t) as [[ma ra] osa] eqn:Ra.
    inversion H; subst. destruct (IH _ _ _ _ _ Ra) as [-> ->]. auto.
Qed.

(** C10: a validation phase and a test pass leave the model parameters
    and the optimizer state exactly as they were before the phase, whether
    the phase completes or raises. *)
Theorem eval_phases_keep_trainable_state X cfg e w w' res :
  (trainval_phase X cfg Val e w = (w', res) ->
     params (ms w') = params (ms w) /\ opt (ms w') = opt (ms w)) /\
  (test_pass X cfg e w = (w', res) ->
     params (ms w') = params (ms w) /\ opt (ms w') = opt (ms w)).
Proof.
  split; intros H.
  - rewrite (trainval_phase_eq X cfg Val e w) in H. unfold trainval_pass in H.
    destruct (run_batches (trainval_step X Val) (enter_phase Val (ms w)) running0 (loader X Val e))
      as [[m2 r] os] eqn:E.
    apply val_loop_keeps_params in E.
    apply phase_results_frame in H as [_ ->]. simpl. exact E.
  - rewrite (test_pass_eq X cfg e w) in H. unfold test_loop in H.
    destruct (run_batches (test_step X) (model_eval (ms w)) running0 (loader X Test e))
      as [[m2 r] os] eqn:E.
    apply test_loop_keeps_model in E. subst m2.
    apply phase_results_frame in H as [_ ->]. simpl. auto.
Qed.

Lemma eval_phases_keep_trainable_state_witness :
  params (ms (fst (trainval_phase demo_ext (demo_cfg 0 1 true) Val 0 demo_world))) =
    params (ms demo_world) /\
  opt (ms (fst (trainval_phase demo_ext (demo_cfg 0 1 true) Val 0 demo_world))) =
    opt (ms demo_world).
Proof.
  destruct (eval_phases_keep_trainable_state demo_ext (demo_cfg 0 1 true) 0 demo_world
              (fst (trainval_phase demo_ext (demo_cfg 0 1 true) Val 0 demo_world))
              (snd (trainval_phase demo_ext (demo_cfg 0 1 true) Val 0 demo_world)))
    as (H & _).
  apply H. vm_compute. reflexivity.
Defined.

(** ** Preorders on worlds *)

Section Preserve.
Variable R : World -> World -> Prop.
Hypothesis R_refl : forall w, R w w.
Hypothesis R_trans : forall w1 w2 w3, R w1 w2 -> R w2 w3 -> R w1 w3.

Lemma preserves_ret {A} (x : A) : preserves R (ret x).
Proof. intros w w' r H. inversion H. subst. apply R_refl. Qed.

Lemma preserves_raise {A} e : preserves R (@raise A e).
Proof. intros w w' r H. inversion H. subst. apply R_refl. Qed.

Lemma preserves_bind {A B} (m : M A) (k : A -> M B) :
  preserves R m -> (forall x, preserves R (k x)) -> preserves R (bind m k).
Proof.
  intros Hm Hk w w' r H. apply bind_inv in H as [(e & H1 & _) | (w1 & x & H1 & H2)].
  - exact (Hm _ _ _ H1).
  - exact (R_trans _ _ _ (Hm _ _ _ H1) (Hk _ _ _ _ H2)).
Qed.

Lemma preserves_run_epochs X cfg es :
  (forall e, preserves R (run_epoch X cfg e)) -> preserves R (run_epochs X cfg es).
Proof.
  intros He. induction es as [|e es IH]; simpl.
  - apply preserves_ret.
  - apply preserves_bind; [apply He | intros; exact IH].
Qed.

Lemma preserves_train_model X cfg :
  preserves R (modify (set_ms (fresh_model X))) ->
  (forall path, preserves R (load_checkpoint path)) ->
  (forall e, preserves R (run_epoch X cfg e)) ->
  preserves R (train_model X cfg).
Proof.
  intros H1 H2 H3. unfold train_model.
  apply preserves_bind; [exact H1|intros _].
  apply preserves_bind; [destruct (resume_path cfg); [apply H2 | apply preserves_ret]|intros _].
  apply preserves_bind;
    [unfold build_loaders; destruct (dataset X Train); [apply preserves_raise|apply preserves_ret]
    |intros _].
  apply preserves_run_epochs. exact H3.
Qed.

End Preserve.

(** ** Frames of the phases *)

Lemma phase_results_cases sd ph e size r w w' res :
  phase_results sd ph e size r w = (w', res) ->
  ckpts w' = ckpts w /\ ms w' = ms w /\
  ((csvs w' = csvs w /\ scalars w' = scalars w) \/
   ((exists c, csvs w' = <[dump_path sd ph e := c]> (csvs w)) /\
    exists added, scalars w' = scalars w ++ added /\
                  Forall (fun x : string * Q * nat => x.1.1 ∈ tags_of ph) added)).
Proof.
  destruct res as [err|[]]; intros H.
  - apply phase_results_err in H. subst. auto.
  - apply phase_results_inv in H as (_ & auc & _ & ->). simpl.
    split; [reflexivity|]. split; [reflexivity|]. right. split; [eauto|].
    eexists. split; [reflexivity|].
    repeat constructor.
Qed.

Lemma trainval_phase_cases X cfg ph e w w' res :
  trainval_phase X cfg ph e w = (w', res) ->
  ckpts w' = ckpts w /\
  ((csvs w' = csvs w /\ scalars w' = scalars w) \/
   ((exists c, csvs w' = <[dump_path (save_dir cfg) (phase_name ph) e := c]> (csvs w)) /\
    exists added, scalars w' = scalars w ++ added /\
                  Forall (fun x : string * Q * nat => x.1.1 ∈ tags_of (phase_name ph)) added)).
Proof.
  rewrite (trainval_phase_eq X cfg ph e w).
  destruct (trainval_pass X ph e (ms w)) as [[m2 r] os].
  intros H. apply phase_results_cases in H as (H1 & _ & H3). exact (conj H1 H3).
Qed.

Lemma test_pass_ckpts X cfg e w w' res :
  test_pass X cfg e w = (w', res) -> ckpts w' = ckpts w.
Proof.
  rewrite (test_pass_eq X cfg e w).
  destruct (test_loop X e (ms w)) as [[m2 r] os].
  intros H. apply phase_results_cases in H as (H1 & _). exact H1.
Qed.

(** ** Checkpoint names and the snapshot condition *)

Lemma string_length_app (a b : string) : String.length (a +:+ b) = String.length a + String.length b.
Proof. induction a as [|c a IH]; simpl; [reflexivity | by rewrite IH]. Qed.

Lemma string_app_suffix_inj (a b s : string) : a +:+ s = b +:+ s -> a = b.
Proof.
  revert b. induction a as [|c a IH]; intros [|d b] H; simpl in H.
  - reflexivity.
  - apply (f_equal String.length) in H. simpl in H. rewrite !string_length_app in H. simpl in H. lia.
  - apply (f_equal String.length) in H. simpl in H. rewrite !string_length_app in H. simpl in H. lia.
  - injection H as -> H. f_equal. by apply IH.
Qed.

Lemma ckpt_path_inj sd e e' : ckpt_path sd e = ckpt_path sd e' -> e = e'.
Proof.
  unfold ckpt_path. intros H.
  apply (inj (String.append sd)) in H.
  apply (inj (String.append "/models/")) in H.
  apply (inj (String.append saveName)) in H.
  apply (inj (String.append "_epoch-")) in H.
  apply string_app_suffix_inj in H.
  by apply (inj pretty) in H.
Qed.

Lemma snapshot_condition e s : s <> 0 -> (e mod s =? s - 1) = ((e + 1) mod s =? 0).
Proof.
  intros Hs.
  assert (Hlt : e mod s < s) by (apply Nat.mod_upper_bound; exact Hs).
  assert (He : (e + 1) mod s = (e mod s + 1) mod s).
  { rewrite (Nat.div_mod e s Hs) at 1.
    replace (s * (e / s) + e mod s + 1) with (e mod s + 1 + (e / s) * s) by lia.
    apply Nat.Div0.mod_add. }
  rewrite He.
  destruct (Nat.eq_dec (e mod s) (s - 1)) as [E|E].
  - rewrite E. replace (s - 1 + 1) with s by lia. rewrite Nat.Div0.mod_same.
    rewrite !Nat.eqb_refl. reflexivity.
  - rewrite (Nat.mod_small (e mod s + 1) s) by lia.
    apply Nat.eqb_neq in E. rewrite E. symmetry. apply Nat.eqb_neq. lia.
Qed.

Lemma save_checkpoint_eq cfg e w :
  save_epoch cfg <> 0 ->
  save_checkpoint cfg e w =
    (if (e + 1) mod save_epoch cfg =? 0
     then set_ckpts (<[ckpt_path (save_dir cfg) e :=
                        mk_ckpt (e + 1) (params (ms w)) (opt (ms w))]> (ckpts w)) w
     else w, inr tt).
Proof.
  intros Hs. unfold save_checkpoint.
  destruct (save_epoch cfg =? 0) eqn:E; [apply Nat.eqb_eq in E; contradiction|].
  rewrite snapshot_condition by exact Hs.
  destruct ((e + 1) mod save_epoch cfg =? 0); reflexivity.
Qed.

(** ** Checkpoint files over a run *)

Lemma keyed_refl sd w : ckpts_keyed_by_epoch sd w w.
Proof. intros k c H. by left. Qed.

Lemma keyed_trans sd w1 w2 w3 :
  ckpts_keyed_by_epoch sd w1 w2 -> ckpts_keyed_by_epoch sd w2 w3 -> ckpts_keyed_by_epoch sd w1 w3.
Proof.
  intros H12 H23 k c H. destruct (H23 k c H) as [H2|H2]; [|by right].
  exact (H12 k c H2).
Qed.

Lemma keyed_same_ckpts sd w w' : ckpts w' = ckpts w -> ckpts_keyed_by_epoch sd w w'.
Proof. intros E k c H. left. by rewrite <- E. Qed.

Lemma load_checkpoint_ckpts path w w' r :
  load_checkpoint path w = (w', r) -> ckpts w' = ckpts w.
Proof.
  unfold load_checkpoint, bind, get, modify, raise. simpl.
  destruct (ckpts w !! path) as [c|]; [|intros H; by inversion H].
  destruct (load_state_dict _ _) as [sd|]; [|intros H; by inversion H].
  destruct (opt_load_state_dict _ _); intros H; by inversion H.
Qed.

Lemma save_checkpoint_keyed cfg e : preserves (ckpts_keyed_by_epoch (save_dir cfg)) (save_checkpoint cfg e).
Proof.
  intros w w' r H.
  destruct (Nat.eq_dec (save_epoch cfg) 0) as [Z|Z].
  - unfold save_checkpoint in H. rewrite Z in H. simpl in H. inversion H. subst. apply keyed_refl.
  - rewrite (save_checkpoint_eq cfg e w Z) in H. inversion H. subst.
    destruct ((e + 1) mod save_epoch cfg =? 0); [|apply keyed_refl].
    intros k c Hk. simpl in Hk.
    destruct (decide (k = ckpt_path (save_dir cfg) e)) as [->|N].
    + rewrite lookup_insert_eq in Hk. inversion Hk. right. eauto.
    + rewrite lookup_insert_ne in Hk by congruence. by left.
Qed.

Lemma run_epoch_keyed X cfg e : preserves (ckpts_keyed_by_epoch (save_dir cfg)) (run_epoch X cfg e).
Proof.
  pose proof (keyed_refl (save_dir cfg)) as Hr.
  pose proof (keyed_trans (save_dir cfg)) as Ht.
  unfold run_epoch.
  apply preserves_bind; auto.
  { intros w w' r H. apply keyed_same_ckpts. exact (proj1 (trainval_phase_cases _ _ _ _ _ _ _ H)). }
  intros _. apply preserves_bind; auto.
  { intros w w' r H. apply keyed_same_ckpts. exact (proj1 (trainval_phase_cases _ _ _ _ _ _ _ H)). }
  intros _. apply preserves_bind; auto; [apply save_checkpoint_keyed|].
  intros _. unfold maybe_test.
  destruct (useTest cfg); [|apply preserves_ret; auto].
  destruct (test_interval cfg =? 0); [apply preserves_raise; auto|].
  destruct (e mod test_interval cfg =? test_interval cfg - 1); [|apply preserves_ret; auto].
  intros w w' r H. apply keyed_same_ckpts. exact (test_pass_ckpts _ _ _ _ _ _ H).
Qed.

(** C5 (amended): with a positive interval, the end-of-epoch save writes a
    checkpoint exactly when (e + 1) is a multiple of the interval, to the
    file named by e, holding the model parameters, the optimizer state and
    the epoch field e + 1; file names of distinct epochs differ; and over a
    whole run every checkpoint file is either left untouched or is the file
    of some epoch e holding epoch field e + 1. *)
Theorem checkpoint_schedule_and_contents cfg e w :
  save_epoch cfg <> 0 ->
  save_checkpoint cfg e w =
    (if (e + 1) mod save_epoch cfg =? 0
     then set_ckpts (<[ckpt_path (save_dir cfg) e :=
                        mk_ckpt (e + 1) (params (ms w)) (opt (ms w))]> (ckpts w)) w
     else w, inr tt) /\
  (forall e', ckpt_path (save_dir cfg) e = ckpt_path (save_dir cfg) e' -> e = e') /\
  (forall X w0 w1 r, train_model X cfg w0 = (w1, r) -> ckpts_keyed_by_epoch (save_dir cfg) w0 w1).
Proof.
  intros Hs. split; [exact (save_checkpoint_eq cfg e w Hs)|].
  split; [apply ckpt_path_inj|].
  intros X w0 w1 r H.
  refine (preserves_train_model _ (keyed_refl _) (keyed_trans _) X cfg _ _ _ _ _ _ H).
  - intros w2 w3 r' H'. inversion H'. subst. by apply keyed_same_ckpts.
  - intros path w2 w3 r' H'. apply keyed_same_ckpts. exact (load_checkpoint_ckpts _ _ _ _ H').
  - apply run_epoch_keyed.
Qed.

Lemma checkpoint_schedule_and_contents_witness :
  save_epoch (demo_cfg 0 2 true) <> 0 /\
  save_checkpoint (demo_cfg 0 2 true) 0 demo_world =
    (set_ckpts (<[ckpt_path "run/run_0" 0 :=
                   mk_ckpt 1 (params (ms demo_world)) (opt (ms demo_world))]> (ckpts demo_world))
               demo_world, inr tt).
Proof.
  assert (Hs : save_epoch (demo_cfg 0 2 true) <> 0) by (simpl; lia).
  split; [exact Hs|].
  destruct (checkpoint_schedule_and_contents (demo_cfg 0 2 true) 0 demo_world Hs) as [H _].
  rewrite H. reflexivity.
Defined.

(** C5 counterexample: the checkpoint written at the end of epoch 0 (interval
    1) stores the epoch field 1, not the epoch index 0. *)
Lemma checkpoint_epoch_field_cex :
  exists c,
    ckpts (fst (train_model demo_ext (demo_cfg 0 1 true) demo_world)) !! ckpt_path "run/run_0" 0
      = Some c /\ ck_epoch c = 1 /\ ck_epoch c <> 0.
Proof.
  eexists. split; [vm_compute; reflexivity|]. split; [reflexivity | discriminate].
Qed.

(** ** Resuming *)

Lemma train_model_resume_cases X cfg w :
  resume_epoch cfg <> 0 ->
  let p := ckpt_path (save_dir cfg) (resume_epoch cfg - 1) in
  let es := seq (resume_epoch cfg) (num_epochs cfg - resume_epoch cfg) in
  resume_path cfg = Some p /\
  (ckpts w !! p = None ->
     train_model X cfg w = (set_ms (fresh_model X) w, inl FileNotFoundError)) /\
  (forall c, ckpts w !! p = Some c ->
     load_state_dict (init_params X) (ck_state_dict c) = None ->
     train_model X cfg w = (set_ms (fresh_model X) w, inl LoadStateDictError)) /\
  (forall c sd, ckpts w !! p = Some c ->
     load_state_dict (init_params X) (ck_state_dict c) = Some sd ->
     opt_load_state_dict (init_opt X) (ck_opt_dict c) = None ->
     train_model X cfg w = (set_ms (mk_ms sd (init_opt X) None true 0) w, inl OptimizerGroupError)) /\
  (forall c sd o, ckpts w !! p = Some c ->
     load_state_dict (init_params X) (ck_state_dict c) = Some sd ->
     opt_load_state_dict (init_opt X) (ck_opt_dict c) = Some o ->
     train_model X cfg w =
       (build_loaders X ;;; run_epochs X cfg es) (set_ms (mk_ms sd o None true 0) w)).
Proof.
  intros HR p es.
  assert (Hp : resume_path cfg = Some p).
  { unfold resume_path. apply Nat.eqb_neq in HR. by rewrite HR. }
  split; [exact Hp|].
  unfold train_model, load_checkpoint, bind, modify, get, raise. rewrite Hp. cbn.
  split; [intros H; by rewrite H|].
  split; [intros c H1 H2; by rewrite H1, H2|].
  split; [intros c sd H1 H2 H3; by rewrite H1, H2, H3|].
  intros c sd o H1 H2 H3. by rewrite H1, H2, H3.
Qed.

(** C1 (amended): when resume_epoch R is non-zero, the run reads the file
    named by epoch R - 1 (the checkpoint written at the end of epoch R - 1)
    before any epoch runs: if it is absent, or its parameters do not match
    the model's names and shapes, or its optimizer groups do not match, the
    run stops with that error and nothing but the in-memory model has
    changed; otherwise the loaded parameters and optimizer state are those
    the epochs of [range(R, num_epochs)] start from, once the data loaders
    are built. *)
Theorem resume_loads_previous_epoch_file X cfg w :
  resume_epoch cfg <> 0 ->
  let p := ckpt_path (save_dir cfg) (resume_epoch cfg - 1) in
  let es := seq (resume_epoch cfg) (num_epochs cfg - resume_epoch cfg) in
  resume_path cfg = Some p /\
  (ckpts w !! p = None ->
     train_model X cfg w = (set_ms (fresh_model X) w, inl FileNotFoundError)) /\
  (forall c, ckpts w !! p = Some c ->
     load_state_dict (init_params X) (ck_state_dict c) = None ->
     train_model X cfg w = (set_ms (fresh_model X) w, inl LoadStateDictError)) /\
  (forall c sd, ckpts w !! p = Some c ->
     load_state_dict (init_params X) (ck_state_dict c) = Some sd ->
     opt_load_state_dict (init_opt X) (ck_opt_dict c) = None ->
     train_model X cfg w = (set_ms (mk_ms sd (init_opt X) None true 0) w, inl OptimizerGroupError)) /\
  (forall c sd o, ckpts w !! p = Some c ->
     load_state_dict (init_params X) (ck_state_dict c) = Some sd ->
     opt_load_state_dict (init_opt X) (ck_opt_dict c) = Some o ->
     train_model X cfg w =
       (build_loaders X ;;; run_epochs X cfg es) (set_ms (mk_ms sd o None true 0) w)).
Proof. apply train_model_resume_cases. Qed.

Lemma resume_loads_previous_epoch_file_witness :
  resume_epoch (demo_cfg 2 3 true) <> 0 /\
  train_model demo_ext (demo_cfg 2 3 true) demo_world_saved_1 =
    (build_loaders demo_ext ;;; run_epochs demo_ext (demo_cfg 2 3 true) [2])
      (set_ms (mk_ms demo_params (mk_opt [1] []) None true 0) demo_world_saved_1).
Proof.
  assert (HR : resume_epoch (demo_cfg 2 3 true) <> 0) by (simpl; lia).
  split; [exact HR|].
  destruct (resume_loads_previous_epoch_file demo_ext (demo_cfg 2 3 true) demo_world_saved_1 HR)
    as (_ & _ & _ & _ & H).
  apply (H (mk_ckpt 2 demo_params (mk_opt [1] [])) demo_params (mk_opt [1] []));
    vm_compute; reflexivity.
Defined.

(** C1 counterexample: with resume_epoch 1 and a compatible checkpoint in
    the file whose name embeds 1, the run does not load it: it looks for the
    file of epoch 0 and stops with FileNotFoundError. *)
Lemma resume_file_named_by_resume_epoch_cex :
  ckpts demo_world_saved_1 !! ckpt_path "run/run_0" (resume_epoch (demo_cfg 1 3 true))
    = Some (mk_ckpt 2 demo_params (mk_opt [1] [])) /\
  load_state_dict (init_params demo_ext) demo_params = Some demo_params /\
  snd (train_model demo_ext (demo_cfg 1 3 true) demo_world_saved_1) = inl FileNotFoundError.
Proof. vm_compute. split; [reflexivity|]. split; reflexivity. Qed.

(** C2 (amended): a checkpoint saved at the end of epoch k is the file named
    by k and stores the epoch field k + 1.  A run resumes from that file
    exactly when its resume_epoch is k + 1 (the stored field; the code never
    reads the field back), and then, once the parameters and optimizer state
    are loaded and the data loaders built, it runs the epochs k + 1, ...,
    num_epochs - 1: the epoch after the saved one. *)
Theorem resume_continues_after_saved_epoch cfg cfg' k w :
  save_epoch cfg <> 0 -> (k + 1) mod save_epoch cfg = 0 -> save_dir cfg' = save_dir cfg ->
  ckpts (fst (save_checkpoint cfg k w)) !! ckpt_path (save_dir cfg) k
    = Some (mk_ckpt (k + 1) (params (ms w)) (opt (ms w))) /\
  (resume_path cfg' = Some (ckpt_path (save_dir cfg) k) <-> resume_epoch cfg' = k + 1) /\
  (forall X w0 c sd o,
     resume_epoch cfg' = k + 1 ->
     ckpts w0 !! ckpt_path (save_dir cfg) k = Some c ->
     load_state_dict (init_params X) (ck_state_dict c) = Some sd ->
     opt_load_state_dict (init_opt X) (ck_opt_dict c) = Some o ->
     train_model X cfg' w0 =
       (build_loaders X ;;; run_epochs X cfg' (seq (k + 1) (num_epochs cfg' - (k + 1))))
         (set_ms (mk_ms sd o None true 0) w0)).
Proof.
  intros Hs Hk Hdir.
  split.
  { rewrite (save_checkpoint_eq cfg k w Hs), Hk. simpl. apply lookup_insert_eq. }
  split.
  { unfold resume_path. rewrite Hdir.
    destruct (resume_epoch cfg' =? 0) eqn:E.
    - apply Nat.eqb_eq in E. split; intros H; [discriminate | lia].
    - apply Nat.eqb_neq in E. split; intros H.
      + injection H as H. apply ckpt_path_inj in H. lia.
      + rewrite H. by replace (k + 1 - 1) with k by lia. }
  intros X w0 c sd o HR Hc Hsd Ho.
  assert (HR0 : resume_epoch cfg' <> 0) by lia.
  destruct (train_model_resume_cases X cfg' w0 HR0) as (_ & _ & _ & _ & H).
  cbv zeta in H. rewrite HR, Hdir in H. replace (k + 1 - 1) with k in H by lia.
  exact (H c sd o Hc Hsd Ho).
Qed.

Lemma resume_continues_after_saved_epoch_witness :
  save_epoch (demo_cfg 0 3 true) <> 0 /\ (1 + 1) mod save_epoch (demo_cfg 0 3 true) = 0 /\
  train_model demo_ext (demo_cfg 2 3 true) demo_world_saved_1 =
    (build_loaders demo_ext ;;;
     run_epochs demo_ext (demo_cfg 2 3 true) (seq (1 + 1) (num_epochs (demo_cfg 2 3 true) - (1 + 1))))
      (set_ms (mk_ms demo_params (mk_opt [1] []) None true 0) demo_world_saved_1).
Proof.
  assert (Hs : save_epoch (demo_cfg 0 3 true) <> 0) by (simpl; lia).
  assert (Hk : (1 + 1) mod save_epoch (demo_cfg 0 3 true) = 0) by reflexivity.
  split; [exact Hs|]. split; [exact Hk|].
  destruct (resume_continues_after_saved_epoch (demo_cfg 0 3 true) (demo_cfg 2 3 true) 1 demo_world
              Hs Hk eq_refl) as (_ & _ & H).
  apply (H demo_ext demo_world_saved_1 (mk_ckpt 2 demo_params (mk_opt [1] [])));
    vm_compute; reflexivity.
Defined.

(** C2 counterexample: the checkpoint saved at epoch 0 holds the field 1,
    and every resume_epoch that loads it starts the loop at epoch 1, not 0. *)
Lemma resume_continues_at_saved_epoch_cex :
  (exists c, ckpts (fst (train_model demo_ext (demo_cfg 0 1 true) demo_world))
               !! ckpt_path "run/run_0" 0 = Some c /\ ck_epoch c = 1) /\
  (forall R, resume_path (demo_cfg R 3 true) = Some (ckpt_path "run/run_0" 0) ->
     hd_error (seq R (3 - R)) = Some 1).
Proof.
  split; [eexists; split; [vm_compute; reflexivity | reflexivity]|].
  intros R. unfold resume_path, demo_cfg. cbn [resume_epoch save_dir].
  destruct (R =? 0) eqn:E; [discriminate|].
  intros H.
  assert (H' : ckpt_path "run/run_0" (R - 1) = ckpt_path "run/run_0" 0) by congruence.
  apply ckpt_path_inj in H'. apply Nat.eqb_neq in E.
  replace R with 1 by lia. reflexivity.
Qed.

(** ** Single-class splits *)

Lemma roc_single_class labels probs l :
  Forall (fun x => x = l) labels -> roc_auc_score labels probs = None.
Proof.
  intros HF. unfold roc_auc_score.
  assert (Hex : forall j, j <> l -> existsb (Nat.eqb j) labels = false).
  { intros j Hj. apply not_true_iff_false. intros Hx.
    apply existsb_exists in Hx as (x & Hin & Hx). apply Nat.eqb_eq in Hx.
    rewrite List.Forall_forall in HF. specialize (HF x Hin). lia. }
  destruct (Nat.eq_dec l 0) as [->|N0].
  - rewrite (Hex 1) by lia. rewrite andb_false_r. reflexivity.
  - rewrite (Hex 0) by lia. reflexivity.
Qed.

Lemma loader_single_class X ph e l :
  Forall (fun s : sample => snd s = l) (dataset X ph) ->
  Forall (fun x => x = l) (map snd (concat (loader X ph e))).
Proof.
  intros HF. apply Forall_map. rewrite List.Forall_forall in *. intros x Hx.
  apply HF. apply (Permutation_in _ (loader_perm X ph e)). exact Hx.
Qed.

Lemma single_class_running_auc X ph e os l :
  Forall2 obs_ok (loader X ph e) os ->
  Forall (fun s : sample => snd s = l) (dataset X ph) ->
  roc_auc_score (running_labels (fold_left accumulate os running0))
                (running_probs (fold_left accumulate os running0)) = None.
Proof.
  intros HO HF. destruct (fold_accumulate os running0) as (H1 & _).
  rewrite H1. simpl. destruct (obs_concat _ _ HO) as (E1 & _). rewrite E1.
  apply (roc_single_class _ _ l). exact (loader_single_class X ph e l HF).
Qed.

Lemma phase_results_no_auc sd ph e size r w :
  size <> 0 -> roc_auc_score (running_labels r) (running_probs r) = None ->
  phase_results sd ph e size r w = (w, inl AucUndefined).
Proof.
  intros Hs Ha. unfold phase_results.
  destruct (size =? 0) eqn:E; [apply Nat.eqb_eq in E; contradiction|].
  rewrite Ha. reflexivity.
Qed.

Lemma trainval_phase_single_class X cfg ph e w l :
  dataset X ph <> [] -> Forall (fun s : sample => snd s = l) (dataset X ph) ->
  exists m2, trainval_phase X cfg ph e w = (set_ms m2 w, inl AucUndefined).
Proof.
  intros Hne HF. rewrite (trainval_phase_eq X cfg ph e w).
  destruct (trainval_pass X ph e (ms w)) as [[m2 r] os] eqn:Hp.
  exists m2. apply trainval_pass_facts in Hp as (HO & ->).
  apply phase_results_no_auc.
  - intros Hl. apply length_zero_iff_nil in Hl. contradiction.
  - exact (single_class_running_auc X ph e os l HO HF).
Qed.

Lemma test_pass_single_class X cfg e w l :
  dataset X Test <> [] -> Forall (fun s : sample => snd s = l) (dataset X Test) ->
  exists m2, test_pass X cfg e w = (set_ms m2 w, inl AucUndefined).
Proof.
  intros Hne HF. rewrite (test_pass_eq X cfg e w).
  destruct (test_loop X e (ms w)) as [[m2 r] os] eqn:Hp.
  exists m2. apply test_loop_facts in Hp as (HO & ->).
  apply phase_results_no_auc.
  - intros Hl. apply length_zero_iff_nil in Hl. contradiction.
  - exact (single_class_running_auc X Test e os l HO HF).
Qed.

(** C3 (amended): a phase whose split is non-empty and holds a single class
    has no AUC and stops with AucUndefined, adding no dump, no scalar and no
    checkpoint; the error ends the run.  A failing train or val phase stops
    the epoch before its checkpoint is saved, so the checkpoint files are
    those from before the epoch; a failing test pass comes after the save,
    so the epoch's checkpoint has already been written. *)
Theorem single_class_split_is_fatal X cfg e es w l :
  (forall ph, dataset X ph <> [] -> Forall (fun s : sample => snd s = l) (dataset X ph) ->
     exists w', trainval_phase X cfg ph e w = (w', inl AucUndefined) /\
       ckpts w' = ckpts w /\ csvs w' = csvs w /\ scalars w' = scalars w) /\
  (dataset X Test <> [] -> Forall (fun s : sample => snd s = l) (dataset X Test) ->
     exists w', test_pass X cfg e w = (w', inl AucUndefined) /\
       ckpts w' = ckpts w /\ csvs w' = csvs w /\ scalars w' = scalars w) /\
  (forall w' err, run_epoch X cfg e w = (w', inl err) ->
     run_epochs X cfg (e :: es) w = (w', inl err)) /\
  (forall w' err, trainval_phase X cfg Train e w = (w', inl err) ->
     run_epoch X cfg e w = (w', inl err) /\ ckpts w' = ckpts w) /\
  (forall w1 w' err, trainval_phase X cfg Train e w = (w1, inr tt) ->
     trainval_phase X cfg Val e w1 = (w', inl err) ->
     run_epoch X cfg e w = (w', inl err) /\ ckpts w' = ckpts w) /\
  (forall w1 w2, trainval_phase X cfg Train e w = (w1, inr tt) ->
     trainval_phase X cfg Val e w1 = (w2, inr tt) ->
     save_epoch cfg <> 0 -> useTest cfg = true -> test_interval cfg <> 0 ->
     e mod test_interval cfg = test_interval cfg - 1 ->
     dataset X Test <> [] -> Forall (fun s : sample => snd s = l) (dataset X Test) ->
     exists w3, run_epoch X cfg e w = (w3, inl AucUndefined) /\
       ckpts w3 = ckpts (fst (save_checkpoint cfg e w2))).
Proof.
  split.
  { intros ph Hne HF. destruct (trainval_phase_single_class X cfg ph e w l Hne HF) as [m2 H].
    exists (set_ms m2 w). auto. }
  split.
  { intros Hne HF. destruct (test_pass_single_class X cfg e w l Hne HF) as [m2 H].
    exists (set_ms m2 w). auto. }
  split.
  { intros w' err H. simpl. exact (bind_inl _ _ _ _ _ H). }
  split.
  { intros w' err H. split; [exact (bind_inl _ _ _ _ _ H)|].
    exact (proj1 (trainval_phase_cases _ _ _ _ _ _ _ H)). }
  split.
  { intros w1 w' err H1 H2. unfold run_epoch.
    rewrite (bind_inr _ _ _ _ _ H1). split; [exact (bind_inl _ _ _ _ _ H2)|].
    rewrite (proj1 (trainval_phase_cases _ _ _ _ _ _ _ H2)).
    exact (proj1 (trainval_phase_cases _ _ _ _ _ _ _ H1)). }
  intros w1 w2 H1 H2 Hs Hu Hti Hm Hne HF.
  destruct (save_checkpoint cfg e w2) as [w3 r3] eqn:Hsave.
  assert (Hr3 : r3 = inr tt).
  { rewrite (save_checkpoint_eq cfg e w2 Hs) in Hsave. by inversion Hsave. }
  subst r3.
  destruct (test_pass_single_class X cfg e w3 l Hne HF) as [m2 Ht].
  exists (set_ms m2 w3). unfold run_epoch.
  rewrite (bind_inr _ _ _ _ _ H1), (bind_inr _ _ _ _ _ H2), (bind_inr _ _ _ _ _ Hsave).
  unfold maybe_test. rewrite Hu.
  destruct (test_interval cfg =? 0) eqn:E; [apply Nat.eqb_eq in E; contradiction|].
  rewrite Hm, Nat.eqb_refl, Ht. split; reflexivity.
Qed.

Lemma single_class_split_is_fatal_witness :
  exists w3,
    run_epoch (demo_ext_on demo_split_test0) (demo_cfg 0 1 true) 0
      (set_ms (fresh_model (demo_ext_on demo_split_test0)) demo_world) = (w3, inl AucUndefined) /\
    ckpts w3 !! ckpt_path "run/run_0" 0 = Some (mk_ckpt 1 demo_params (mk_opt [1] [])).
Proof.
  set (X := demo_ext_on demo_split_test0).
  set (cfg := demo_cfg 0 1 true).
  set (w := set_ms (fresh_model X) demo_world).
  set (w1 := fst (trainval_phase X cfg Train 0 w)).
  set (w2 := fst (trainval_phase X cfg Val 0 w1)).
  destruct (single_class_split_is_fatal X cfg 0 [] w 0) as (_ & _ & _ & _ & _ & H).
  destruct (H w1 w2) as (w3 & E & C).
  - vm_compute. reflexivity.
  - vm_compute. reflexivity.
  - simpl. lia.
  - reflexivity.
  - simpl. lia.
  - reflexivity.
  - discriminate.
  - repeat constructor.
  - exists w3. split; [exact E|]. rewrite C. vm_compute. reflexivity.
Defined.

(** C3 counterexample: with a test split holding label 0 only, the run stops
    with AucUndefined in the test pass of epoch 0, after the checkpoint of
    epoch 0 has been written. *)
Lemma single_class_test_after_checkpoint_cex :
  Forall (fun s : sample => snd s = 0) (demo_split_test0 Test) /\
  snd (train_model (demo_ext_on demo_split_test0) (demo_cfg 0 1 true) demo_world)
    = inl AucUndefined /\
  ckpts (fst (train_model (demo_ext_on demo_split_test0) (demo_cfg 0 1 true) demo_world))
    !! ckpt_path "run/run_0" 0 = Some (mk_ckpt 1 demo_params (mk_opt [1] [])).
Proof.
  split; [repeat constructor|]. split; vm_compute; reflexivity.
Qed.

(** ** Runs without the test pass *)

Lemma no_test_same sd w w' :
  csvs w' = csvs w -> scalars w' = scalars w -> no_test_output sd w w'.
Proof.
  intros Hc Hs. split; [intros e; by rewrite Hc|].
  exists []. rewrite app_nil_r. split; [exact Hs | constructor].
Qed.

Lemma no_test_refl sd w : no_test_output sd w w.
Proof. by apply no_test_same. Qed.

Lemma no_test_trans sd w1 w2 w3 :
  no_test_output sd w1 w2 -> no_test_output sd w2 w3 -> no_test_output sd w1 w3.
Proof.
  intros (C12 & a1 & S12 & F1) (C23 & a2 & S23 & F2).
  split; [intros e; by rewrite C23, C12|].
  exists (a1 ++ a2). rewrite S23, S12, app_assoc. split; [reflexivity|].
  by apply Forall_app.
Qed.

Lemma dump_path_not_test sd ph e e' :
  ph <> Test -> dump_path sd (phase_name ph) e <> dump_path sd "test" e'.
Proof.
  intros Hph H. unfold dump_path in H.
  apply (inj (String.append sd)) in H.
  apply (inj (String.append "/predictions/")) in H.
  destruct ph; [| |contradiction]; simpl in H; discriminate.
Qed.

Lemma tags_not_test ph x :
  ph <> Test -> x ∈ tags_of (phase_name ph) -> ~ is_test_entry (x, 0%Q, 0).
Proof.
  unfold is_test_entry. simpl. intros Hph Hx.
  destruct ph; [| |contradiction]; simpl in Hx;
    repeat (apply elem_of_cons in Hx as [->|Hx]);
    try (apply elem_of_nil in Hx; contradiction);
    apply (bool_decide_unpack _); vm_compute; reflexivity.
Qed.

Lemma trainval_phase_no_test X cfg ph e :
  ph <> Test -> preserves (no_test_output (save_dir cfg)) (trainval_phase X cfg ph e).
Proof.
  intros Hph w w' r H.
  destruct (trainval_phase_cases _ _ _ _ _ _ _ H) as (_ & [(Hc & Hs) | ((c & Hc) & a & Hs & Ha)]).
  - by apply no_test_same.
  - split.
    + intros e'. rewrite Hc. apply lookup_insert_ne. by apply dump_path_not_test.
    + exists a. split; [exact Hs|].
      eapply Forall_impl; [exact Ha|]. intros [[x v] s] Hx.
      exact (tags_not_test ph x Hph Hx).
Qed.

Lemma save_checkpoint_frame cfg e w w' r :
  save_checkpoint cfg e w = (w', r) -> csvs w' = csvs w /\ scalars w' = scalars w.
Proof.
  unfold save_checkpoint, modify, raise, ret.
  destruct (save_epoch cfg =? 0); [intros H; by inversion H|].
  destruct (e mod save_epoch cfg =? save_epoch cfg - 1); intros H; by inversion H.
Qed.

Lemma load_checkpoint_frame path w w' r :
  load_checkpoint path w = (w', r) -> csvs w' = csvs w /\ scalars w' = scalars w.
Proof.
  unfold load_checkpoint, bind, get, modify, raise. simpl.
  destruct (ckpts w !! path) as [c|]; [|intros H; by inversion H].
  destruct (load_state_dict _ _) as [sd|]; [|intros H; by inversion H].
  destruct (opt_load_state_dict _ _); intros H; by inversion H.
Qed.

Lemma run_epoch_no_test X cfg e :
  useTest cfg = false -> preserves (no_test_output (save_dir cfg)) (run_epoch X cfg e).
Proof.
  intros Hu.
  pose proof (no_test_refl (save_dir cfg)) as Hr.
  pose proof (no_test_trans (save_dir cfg)) as Ht.
  unfold run_epoch.
  apply preserves_bind; auto; [apply trainval_phase_no_test; discriminate|intros _].
  apply preserves_bind; auto; [apply trainval_phase_no_test; discriminate|intros _].
  apply preserves_bind; auto.
  { intros w w' r H. destruct (save_checkpoint_frame _ _ _ _ _ H). by apply no_test_same. }
  intros _. unfold maybe_test. rewrite Hu. apply preserves_ret; auto.
Qed.

(** C8: when useTest is false, a whole run (any resume epoch, epoch count,
    test interval) leaves every test dump file as it was and only appends
    scalar entries whose tags are not the test tags. *)
Theorem test_disabled_no_test_output X cfg w w' r :
  useTest cfg = false ->
  train_model X cfg w = (w', r) ->
  no_test_output (save_dir cfg) w w'.
Proof.
  intros Hu H.
  refine (preserves_train_model _ (no_test_refl _) (no_test_trans _) X cfg _ _ _ _ _ _ H).
  - intros w2 w3 r' H'. inversion H'. subst. by apply no_test_same.
  - intros path w2 w3 r' H'. destruct (load_checkpoint_frame _ _ _ _ H'). by apply no_test_same.
  - intros e. by apply run_epoch_no_test.
Qed.

Lemma test_disabled_no_test_output_witness :
  useTest (demo_cfg 0 2 false) = false /\
  snd (train_model demo_ext (demo_cfg 0 2 false) demo_world) = inr tt /\
  no_test_output "run/run_0" demo_world (fst (train_model demo_ext (demo_cfg 0 2 false) demo_world)).
Proof.
  assert (Hu : useTest (demo_cfg 0 2 false) = false) by reflexivity.
  split; [exact Hu|]. split; [vm_compute; reflexivity|].
  apply (test_disabled_no_test_output demo_ext (demo_cfg 0 2 false) demo_world _
           (snd (train_model demo_ext (demo_cfg 0 2 false) demo_world)) Hu).
  apply surjective_pairing.
Defined.

(** * Further properties of [train_model] *)

(** Splits a successful bind in hypothesis [H] into its two steps. *)
Ltac bind_ok H w1 H1 :=
  let e := fresh "e" in let He := fresh "He" in let Hr := fresh "Hr" in
  apply bind_inv in H as [(e & He & Hr) | (w1 & [] & H1 & H)]; [discriminate Hr|].

(** ** The learning-rate schedule *)

Lemma trainval_batches_sched X ph m r bs m1 r1 os1 :
  run_batches (trainval_step X ph) m r bs = (m1, r1, os1) -> sched_epoch m1 = sched_epoch m.
Proof.
  revert m r m1 r1 os1. induction bs as [|b t IH]; intros m r m1 r1 os1 H;
    cbn [run_batches] in H.
  - by inversion H.
  - destruct (trainval_step X ph m b) as [mb ob] eqn:Sb.
    assert (Emb : sched_epoch mb = sched_epoch m).
    { unfold trainval_step in Sb. destruct ph; cbn in Sb;
        [unfold backward_step in Sb; destruct (adam_step X _ _ _ _) as [p' o']|..];
        inversion Sb; reflexivity. }
    destruct (run_batches (trainval_step X ph) mb (accumulate r ob) t) as [[ma ra] osa] eqn:Ra.
    inversion H; subst. rewrite (IH _ _ _ _ _ Ra). exact Emb.
Qed.

Lemma trainval_phase_sched X cfg ph e w w' r :
  trainval_phase X cfg ph e w = (w', r) ->
  sched_epoch (ms w') = match ph with Train => S (sched_epoch (ms w)) | _ => sched_epoch (ms w) end.
Proof.
  rewrite (trainval_phase_eq X cfg ph e w). unfold trainval_pass.
  destruct (run_batches _ _ _ _) as [[m2 r2] os] eqn:E.
  intros H. apply phase_results_frame in H as [_ ->]. simpl.
  rewrite (trainval_batches_sched _ _ _ _ _ _ _ _ E). by destruct ph.
Qed.

Lemma test_pass_ms X cfg e w w' r :
  test_pass X cfg e w = (w', r) -> ms w' = model_eval (ms w).
Proof.
  rewrite (test_pass_eq X cfg e w). unfold test_loop.
  destruct (run_batches _ _ _ _) as [[m2 r2] os] eqn:E.
  intros H. apply phase_results_frame in H as [_ ->]. simpl.
  exact (test_loop_keeps_model _ _ _ _ _ _ _ E).
Qed.

Lemma save_checkpoint_ms cfg e w w' r :
  save_checkpoint cfg e w = (w', r) -> ms w' = ms w.
Proof.
  unfold save_checkpoint, modify, raise, ret.
  destruct (save_epoch cfg =? 0); [intros H; by inversion H|].
  destruct (e mod save_epoch cfg =? save_epoch cfg - 1); intros H; by inversion H.
Qed.

Lemma maybe_test_sched X cfg e w w' r :
  maybe_test X cfg e w = (w', r) -> sched_epoch (ms w') = sched_epoch (ms w).
Proof.
  unfold maybe_test.
  destruct (useTest cfg); [|intros H; by inversion H].
  destruct (test_interval cfg =? 0); [intros H; by inversion H|].
  destruct (e mod test_interval cfg =? test_interval cfg - 1); [|intros H; by inversion H].
  intros H. by rewrite (test_pass_ms _ _ _ _ _ _ H).
Qed.

Lemma run_epoch_sched X cfg e w w' :
  run_epoch X cfg e w = (w', inr tt) -> sched_epoch (ms w') = S (sched_epoch (ms w)).
Proof.
  unfold run_epoch. intros H.
  bind_ok H w1 H1. bind_ok H w2 H2. bind_ok H w3 H3.
  rewrite (maybe_test_sched _ _ _ _ _ _ H), (save_checkpoint_ms _ _ _ _ _ H3).
  rewrite (trainval_phase_sched _ _ _ _ _ _ _ H2), (trainval_phase_sched _ _ _ _ _ _ _ H1).
  reflexivity.
Qed.

Lemma run_epochs_sched X cfg es w w' :
  run_epochs X cfg es w = (w', inr tt) -> sched_epoch (ms w') = length es + sched_epoch (ms w).
Proof.
  revert w. induction es as [|e es IH]; intros w H; simpl in H.
  - by inversion H.
  - bind_ok H w1 H1. rewrite (IH _ H), (run_epoch_sched _ _ _ _ _ H1). simpl. lia.
Qed.

Lemma load_checkpoint_ok path w w' :
  load_checkpoint path w = (w', inr tt) ->
  exists c sd o, ckpts w !! path = Some c /\
    load_state_dict (params (ms w)) (ck_state_dict c) = Some sd /\
    opt_load_state_dict (opt (ms w)) (ck_opt_dict c) = Some o /\
    w' = set_ms (mk_ms sd o (grads (ms w)) (training (ms w)) (sched_epoch (ms w))) w.
Proof.
  unfold load_checkpoint, bind, get, modify, raise. simpl.
  destruct (ckpts w !! path) as [c|]; [|discriminate].
  destruct (load_state_dict _ _) as [sd|] eqn:E1; [|discriminate].
  destruct (opt_load_state_dict _ _) as [o|] eqn:E2; [|discriminate].
  intros H. inversion H. eauto 10.
Qed.

Lemma build_loaders_frame X w w' r : build_loaders X w = (w', r) -> w' = w.
Proof. unfold build_loaders, raise, ret. destruct (dataset X Train); by inversion 1. Qed.

(** A successful run leaves the CosineAnnealingLR scheduler stepped once per
    epoch it ran: num_epochs - resume_epoch times.  The scheduler is built
    fresh and is not part of the checkpoint, so a resumed run restarts the
    schedule at step 0. *)
Theorem scheduler_steps_once_per_epoch X cfg w w' :
  train_model X cfg w = (w', inr tt) ->
  sched_epoch (ms w') = num_epochs cfg - resume_epoch cfg.
Proof.
  unfold train_model. intros H.
  bind_ok H w1 H1. bind_ok H w2 H2. bind_ok H w3 H3.
  apply build_loaders_frame in H3. subst w3.
  inversion H1; subst w1.
  assert (Hs : sched_epoch (ms w2) = 0).
  { destruct (resume_path cfg) as [p|].
    - apply load_checkpoint_ok in H2 as (c & sd & o & _ & _ & _ & ->). reflexivity.
    - inversion H2. reflexivity. }
  rewrite (run_epochs_sched _ _ _ _ _ H), Hs, length_seq. lia.
Qed.

Lemma scheduler_steps_once_per_epoch_witness :
  sched_epoch (ms (fst (train_model demo_ext (demo_cfg 0 3 true) demo_world))) = 3 /\
  sched_epoch (ms (fst (train_model demo_ext (demo_cfg 2 3 true) demo_world_saved_1))) = 1.
Proof.
  split.
  - apply (scheduler_steps_once_per_epoch demo_ext (demo_cfg 0 3 true) demo_world).
    vm_compute. reflexivity.
  - apply (scheduler_steps_once_per_epoch demo_ext (demo_cfg 2 3 true) demo_world_saved_1).
    vm_compute. reflexivity.
Defined.

(** ** Degenerate configurations *)

Lemma bind_fails {A B} (m : M A) (k : A -> M B) w w' r :
  (forall w1 w1' r1, m w1 = (w1', r1) -> exists e, r1 = inl e) ->
  bind m k w = (w', r) -> exists e, r = inl e.
Proof.
  intros Hm H. apply bind_inv in H as [(e & _ & ->) | (w1 & x & H1 & _)]; [eauto|].
  destruct (Hm _ _ _ H1) as [e He]. discriminate He.
Qed.

Lemma bind_fails_k {A B} (m : M A) (k : A -> M B) w w' r :
  (forall x w1 w1' r1, k x w1 = (w1', r1) -> exists e, r1 = inl e) ->
  bind m k w = (w', r) -> exists e, r = inl e.
Proof.
  intros Hk H. apply bind_inv in H as [(e & _ & ->) | (w1 & x & _ & H2)]; [eauto|].
  exact (Hk _ _ _ _ H2).
Qed.

(** A run over a non-empty epoch range fails when every epoch fails. *)
Lemma train_model_fails X cfg w w' r :
  resume_epoch cfg < num_epochs cfg ->
  (forall e w1 w1' r1, run_epoch X cfg e w1 = (w1', r1) -> exists err, r1 = inl err) ->
  train_model X cfg w = (w', r) -> exists err, r = inl err.
Proof.
  intros HRN He H. unfold train_model in H.
  destruct (num_epochs cfg - resume_epoch cfg) as [|n] eqn:En; [lia|].
  apply (bind_fails_k _ _ _ _ _) in H; [exact H|]. intros [] w1 w1' r1 H1.
  apply (bind_fails_k _ _ _ _ _) in H1; [exact H1|]. intros [] w2 w2' r2 H2.
  apply (bind_fails_k _ _ _ _ _) in H2; [exact H2|]. intros [] w3 w3' r3 H3.
  simpl in H3. apply (bind_fails _ _ _ _ _) in H3; [exact H3|]. exact (He _).
Qed.

Lemma train_model_ckpts_same X cfg :
  (forall e, preserves (fun w w' => ckpts w' = ckpts w) (run_epoch X cfg e)) ->
  preserves (fun w w' => ckpts w' = ckpts w) (train_model X cfg).
Proof.
  intros He. apply preserves_train_model.
  - reflexivity.
  - intros w1 w2 w3 ? ?. congruence.
  - intros w w' r H. by inversion H.
  - intros path w w' r H. exact (load_checkpoint_ckpts _ _ _ _ H).
  - exact He.
Qed.

(** With a resume epoch at or past num_epochs no epoch runs: whatever the
    outcome of the resume step, no checkpoint, prediction dump or scalar is
    written. *)
Theorem empty_epoch_range_writes_nothing X cfg w w' r :
  num_epochs cfg <= resume_epoch cfg ->
  train_model X cfg w = (w', r) ->
  ckpts w' = ckpts w /\ csvs w' = csvs w /\ scalars w' = scalars w.
Proof.
  intros HNR H. unfold train_model in H.
  replace (num_epochs cfg - resume_epoch cfg) with 0 in H by lia. simpl in H.
  apply bind_inv in H as [(e & H1 & _) | (w1 & [] & H1 & H)]; [discriminate H1|].
  inversion H1; subst w1.
  assert (Hl : forall w2 r2,
    match resume_path cfg with None => ret tt | Some path => load_checkpoint path end
      (set_ms (fresh_model X) w) = (w2, r2) ->
    ckpts w2 = ckpts w /\ csvs w2 = csvs w /\ scalars w2 = scalars w).
  { intros w2 r2 H2. destruct (resume_path cfg) as [p|].
    - rewrite (load_checkpoint_ckpts _ _ _ _ H2).
      destruct (load_checkpoint_frame _ _ _ _ H2) as [-> ->]. auto.
    - inversion H2. auto. }
  apply bind_inv in H as [(e & H2 & _) | (w2 & [] & H2 & H)].
  - exact (Hl _ _ H2).
  - apply bind_inv in H as [(e & H3 & _) | (w3 & [] & H3 & H)].
    + apply build_loaders_frame in H3. subst w'. exact (Hl _ _ H2).
    + apply build_loaders_frame in H3. subst w3. inversion H; subst. exact (Hl _ _ H2).
Qed.

Lemma empty_epoch_range_writes_nothing_witness :
  num_epochs (demo_cfg 3 2 true) <= resume_epoch (demo_cfg 3 2 true) /\
  ckpts (fst (train_model demo_ext (demo_cfg 3 2 true) demo_world_saved_1)) = ckpts demo_world_saved_1.
Proof.
  assert (HNR : num_epochs (demo_cfg 3 2 true) <= resume_epoch (demo_cfg 3 2 true)) by (simpl; lia).
  split; [exact HNR|].
  exact (proj1 (empty_epoch_range_writes_nothing demo_ext (demo_cfg 3 2 true) demo_world_saved_1 _ _
                  HNR (surjective_pairing _))).
Defined.

Lemma run_epoch_fails_zero_snapshot X cfg e w w' r :
  save_epoch cfg = 0 -> run_epoch X cfg e w = (w', r) -> exists err, r = inl err.
Proof.
  intros Hs H. unfold run_epoch in H.
  apply (bind_fails_k _ _ _ _ _) in H; [exact H|]. intros [] w1 w1' r1 H1.
  apply (bind_fails_k _ _ _ _ _) in H1; [exact H1|]. intros [] w2 w2' r2 H2.
  apply (bind_fails _ _ _ _ _) in H2; [exact H2|]. intros w3 w3' r3 H3.
  unfold save_checkpoint in H3. rewrite Hs in H3. inversion H3. eauto.
Qed.

(** A checkpoint interval of 0 ([snapshot = 0]) makes [epoch % save_epoch]
    raise ZeroDivisionError at the end of the first epoch: the run writes no
    checkpoint at all, and fails whenever its epoch range is non-empty. *)
Theorem zero_snapshot_interval_is_fatal X cfg w w' r :
  save_epoch cfg = 0 ->
  train_model X cfg w = (w', r) ->
  ckpts w' = ckpts w /\ (resume_epoch cfg < num_epochs cfg -> exists err, r = inl err).
Proof.
  intros Hs H. split.
  - refine (train_model_ckpts_same X cfg _ _ _ _ H). intros e.
    unfold run_epoch.
    assert (Hr : forall w1 : World, ckpts w1 = ckpts w1) by reflexivity.
    assert (Htr : forall w1 w2 w3 : World, ckpts w2 = ckpts w1 -> ckpts w3 = ckpts w2 -> ckpts w3 = ckpts w1)
      by congruence.
    assert (Htv : forall ph, preserves (fun w w' => ckpts w' = ckpts w) (trainval_phase X cfg ph e)).
    { intros ph w1 w1' r1 H1. exact (proj1 (trainval_phase_cases _ _ _ _ _ _ _ H1)). }
    apply preserves_bind; auto; intros _.
    apply preserves_bind; auto; intros _.
    apply preserves_bind; auto; [|intros _].
    + intros w1 w1' r1 H1. unfold save_checkpoint in H1. rewrite Hs in H1. by inversion H1.
    + intros w1 w1' r1 H1. unfold maybe_test in H1.
      destruct (useTest cfg); [|by inversion H1].
      destruct (test_interval cfg =? 0); [by inversion H1|].
      destruct (e mod test_interval cfg =? test_interval cfg - 1); [|by inversion H1].
      exact (test_pass_ckpts _ _ _ _ _ _ H1).
  - intros HRN. refine (train_model_fails X cfg w w' r HRN _ H).
    intros e w1 w1' r1 H1. exact (run_epoch_fails_zero_snapshot _ _ _ _ _ _ Hs H1).
Qed.

Lemma zero_snapshot_interval_is_fatal_witness :
  snd (train_model demo_ext (mk_cfg "run/run_0" 2 0 true 1 0) demo_world) = inl ZeroDivisionError /\
  ckpts (fst (train_model demo_ext (mk_cfg "run/run_0" 2 0 true 1 0) demo_world)) = ∅.
Proof.
  split; [vm_compute; reflexivity|].
  exact (proj1 (zero_snapshot_interval_is_fatal demo_ext (mk_cfg "run/run_0" 2 0 true 1 0) demo_world
                  _ _ eq_refl (surjective_pairing _))).
Defined.

Lemma run_epoch_no_test_zero_interval X cfg e :
  test_interval cfg = 0 -> preserves (no_test_output (save_dir cfg)) (run_epoch X cfg e).
Proof.
  intros Ht.
  pose proof (no_test_refl (save_dir cfg)) as Hr.
  pose proof (no_test_trans (save_dir cfg)) as Htr.
  unfold run_epoch.
  apply preserves_bind; auto; [apply trainval_phase_no_test; discriminate|intros _].
  apply preserves_bind; auto; [apply trainval_phase_no_test; discriminate|intros _].
  apply preserves_bind; auto.
  { intros w w' r H. destruct (save_checkpoint_frame _ _ _ _ _ H). by apply no_test_same. }
  intros _. unfold maybe_test. rewrite Ht. simpl.
  destruct (useTest cfg); [apply preserves_raise | apply preserves_ret]; auto.
Qed.

Lemma run_epoch_fails_zero_interval X cfg e w w' r :
  useTest cfg = true -> test_interval cfg = 0 ->
  run_epoch X cfg e w = (w', r) -> exists err, r = inl err.
Proof.
  intros Hu Ht H. unfold run_epoch in H.
  apply (bind_fails_k _ _ _ _ _) in H; [exact H|]. intros [] w1 w1' r1 H1.
  apply (bind_fails_k _ _ _ _ _) in H1; [exact H1|]. intros [] w2 w2' r2 H2.
  apply (bind_fails_k _ _ _ _ _) in H2; [exact H2|]. intros [] w3 w3' r3 H3.
  unfold maybe_test in H3. rewrite Hu, Ht in H3. inversion H3. eauto.
Qed.

(** With the test pass enabled and a test interval of 0, the test condition
    [epoch % test_interval] raises ZeroDivisionError in the first epoch,
    after that epoch's train and val phases and checkpoint: no test dump or
    test scalar is ever written, and a run over a non-empty epoch range
    fails. *)
Theorem zero_test_interval_is_fatal X cfg w w' r :
  useTest cfg = true -> test_interval cfg = 0 ->
  train_model X cfg w = (w', r) ->
  no_test_output (save_dir cfg) w w' /\ (resume_epoch cfg < num_epochs cfg -> exists err, r = inl err).
Proof.
  intros Hu Ht H. split.
  - refine (preserves_train_model _ (no_test_refl _) (no_test_trans _) X cfg _ _ _ _ _ _ H).
    + intros w2 w3 r' H'. inversion H'. subst. by apply no_test_same.
    + intros path w2 w3 r' H'. destruct (load_checkpoint_frame _ _ _ _ H'). by apply no_test_same.
    + intros e. by apply run_epoch_no_test_zero_interval.
  - intros HRN. refine (train_model_fails X cfg w w' r HRN _ H).
    intros e w1 w1' r1 H1. exact (run_epoch_fails_zero_interval _ _ _ _ _ _ Hu Ht H1).
Qed.

Lemma zero_test_interval_is_fatal_witness :
  snd (train_model demo_ext (mk_cfg "run/run_0" 2 0 true 0 1) demo_world) = inl ZeroDivisionError /\
  no_test_output "run/run_0" demo_world (fst (train_model demo_ext (mk_cfg "run/run_0" 2 0 true 0 1) demo_world)).
Proof.
  split; [vm_compute; reflexivity|].
  exact (proj1 (zero_test_interval_is_fatal demo_ext (mk_cfg "run/run_0" 2 0 true 0 1) demo_world
                  _ _ eq_refl eq_refl (surjective_pairing _))).
Defined.

(** An empty val or test split makes its phase divide by a size of 0
    ([running_loss / trainval_sizes[phase]], [running_loss / test_size]):
    the phase raises ZeroDivisionError and writes no dump, scalar or
    checkpoint. *)
Theorem empty_split_is_fatal X cfg e w :
  (dataset X Val = [] ->
     exists m2, trainval_phase X cfg Val e w = (set_ms m2 w, inl ZeroDivisionError)) /\
  (dataset X Test = [] ->
     exists m2, test_pass X cfg e w = (set_ms m2 w, inl ZeroDivisionError)).
Proof.
  split.
  - intros Hd. rewrite (trainval_phase_eq X cfg Val e w).
    destruct (trainval_pass X Val e (ms w)) as [[m2 r] os]. exists m2.
    unfold phase_results. by rewrite Hd.
  - intros Hd. rewrite (test_pass_eq X cfg e w).
    destruct (test_loop X e (ms w)) as [[m2 r] os]. exists m2.
    unfold phase_results. by rewrite Hd.
Qed.

Lemma empty_split_is_fatal_witness :
  exists m2, trainval_phase (demo_ext_on (fun _ => [])) (demo_cfg 0 1 true) Val 0 demo_world
             = (set_ms m2 demo_world, inl ZeroDivisionError).
Proof.
  exact (proj1 (empty_split_is_fatal (demo_ext_on (fun _ => [])) (demo_cfg 0 1 true) 0 demo_world)
           eq_refl).
Defined.

(** An empty train split makes building the shuffling train loader raise
    ValueError before the first epoch (or the resume load fails first): the
    run fails and writes no checkpoint, dump or scalar.  A fresh run fails
    with that ValueError. *)
Theorem empty_train_split_is_fatal X cfg w w' r :
  dataset X Train = [] ->
  train_model X cfg w = (w', r) ->
  (exists err, r = inl err) /\
  ckpts w' = ckpts w /\ csvs w' = csvs w /\ scalars w' = scalars w /\
  (resume_epoch cfg = 0 -> r = inl ValueError).
Proof.
  intros Hd H. unfold train_model in H.
  apply bind_inv in H as [(e & H1 & _) | (w1 & [] & H1 & H)]; [discriminate H1|].
  inversion H1; subst w1.
  assert (Hl : forall w2 r2,
    match resume_path cfg with None => ret tt | Some path => load_checkpoint path end
      (set_ms (fresh_model X) w) = (w2, r2) ->
    ckpts w2 = ckpts w /\ csvs w2 = csvs w /\ scalars w2 = scalars w).
  { intros w2 r2 H2. destruct (resume_path cfg) as [p|].
    - rewrite (load_checkpoint_ckpts _ _ _ _ H2).
      destruct (load_checkpoint_frame _ _ _ _ H2) as [-> ->]. auto.
    - inversion H2. auto. }
  apply bind_inv in H as [(e & H2 & ->) | (w2 & [] & H2 & H)].
  - destruct (Hl _ _ H2) as (A & B & C). split; [eauto|]. do 3 (split; [done|]).
    intros HR. unfold resume_path in H2. rewrite HR in H2. discriminate H2.
  - unfold bind, build_loaders, raise in H. rewrite Hd in H. inversion H; subst.
    destruct (Hl _ _ H2) as (A & B & C). split; [eauto|]. do 3 (split; [done|]). done.
Qed.

Lemma empty_train_split_is_fatal_witness :
  dataset (demo_ext_on (fun _ => [])) Train = [] /\
  snd (train_model (demo_ext_on (fun _ => [])) (demo_cfg 0 1 true) demo_world) = inl ValueError.
Proof.
  split; [reflexivity|].
  destruct (train_model (demo_ext_on (fun _ => [])) (demo_cfg 0 1 true) demo_world) as [w' r] eqn:E.
  exact (proj2 (proj2 (proj2 (proj2
           (empty_train_split_is_fatal (demo_ext_on (fun _ => [])) (demo_cfg 0 1 true) demo_world
              w' r eq_refl E)))) eq_refl).
Defined.

(** ** What one epoch logs and dumps *)

Lemma phase_results_tags sd ph e size r w w' :
  phase_results sd ph e size r w = (w', inr tt) ->
  exists added, scalars w' = scalars w ++ added /\
    map (fun x : string * Q * nat => (x.1.1, x.2)) added = map (fun t => (t, e)) (tags_of ph).
Proof.
  intros H. apply phase_results_inv in H as (_ & auc & _ & ->).
  eexists. split; reflexivity.
Qed.

Lemma trainval_phase_tags X cfg ph e w w' :
  trainval_phase X cfg ph e w = (w', inr tt) ->
  exists added, scalars w' = scalars w ++ added /\
    map (fun x : string * Q * nat => (x.1.1, x.2)) added = map (fun t => (t, e)) (tags_of (phase_name ph)).
Proof.
  rewrite (trainval_phase_eq X cfg ph e w).
  destruct (trainval_pass X ph e (ms w)) as [[m2 r] os].
  intros H. destruct (phase_results_tags _ _ _ _ _ _ _ H) as (a & S & T). eauto.
Qed.

Lemma test_pass_tags X cfg e w w' :
  test_pass X cfg e w = (w', inr tt) ->
  exists added, scalars w' = scalars w ++ added /\
    map (fun x : string * Q * nat => (x.1.1, x.2)) added = map (fun t => (t, e)) (tags_of "test").
Proof.
  rewrite (test_pass_eq X cfg e w).
  destruct (test_loop X e (ms w)) as [[m2 r] os].
  intros H. destruct (phase_results_tags _ _ _ _ _ _ _ H) as (a & S & T). eauto.
Qed.

(** A successful epoch e appends to the scalar log exactly the five train
    tags, then the five val tags, then, when the test pass is due
    ((e + 1) a multiple of test_interval), the five test tags, all logged at
    step e. *)
Theorem epoch_scalar_log X cfg e w w' :
  run_epoch X cfg e w = (w', inr tt) ->
  exists added, scalars w' = scalars w ++ added /\
    map (fun x : string * Q * nat => (x.1.1, x.2)) added =
      map (fun t => (t, e))
        (tags_of "train" ++ tags_of "val" ++
         (if useTest cfg && ((e + 1) mod test_interval cfg =? 0) then tags_of "test" else [])).
Proof.
  unfold run_epoch. intros H.
  bind_ok H w1 H1. bind_ok H w2 H2. bind_ok H w3 H3.
  destruct (trainval_phase_tags _ _ _ _ _ _ H1) as (a1 & S1 & T1).
  destruct (trainval_phase_tags _ _ _ _ _ _ H2) as (a2 & S2 & T2).
  destruct (save_checkpoint_frame _ _ _ _ _ H3) as [_ S3].
  assert (Ht : exists a3, scalars w' = scalars w3 ++ a3 /\
    map (fun x : string * Q * nat => (x.1.1, x.2)) a3 =
      map (fun t => (t, e))
        (if useTest cfg && ((e + 1) mod test_interval cfg =? 0) then tags_of "test" else [])).
  { unfold maybe_test in H. destruct (useTest cfg); simpl.
    - destruct (test_interval cfg =? 0) eqn:Z; [discriminate H|].
      apply Nat.eqb_neq in Z. rewrite <- (snapshot_condition e _ Z).
      destruct (e mod test_interval cfg =? test_interval cfg - 1).
      + exact (test_pass_tags _ _ _ _ _ H).
      + inversion H. exists []. by rewrite app_nil_r.
    - inversion H. exists []. by rewrite app_nil_r. }
  destruct Ht as (a3 & S4 & T3).
  exists (a1 ++ a2 ++ a3). rewrite S4, S3, S2, S1, !app_assoc. split; [reflexivity|].
  rewrite !map_app, T1, T2, T3. reflexivity.
Qed.

Lemma epoch_scalar_log_witness :
  exists added,
    scalars (fst (run_epoch demo_ext (demo_cfg 0 1 true) 0 (set_ms (fresh_model demo_ext) demo_world)))
      = scalars (set_ms (fresh_model demo_ext) demo_world) ++ added /\
    map (fun x : string * Q * nat => (x.1.1, x.2)) added =
      map (fun t => (t, 0)) (tags_of "train" ++ tags_of "val" ++ tags_of "test").
Proof.
  apply (epoch_scalar_log demo_ext (demo_cfg 0 1 true) 0 (set_ms (fresh_model demo_ext) demo_world)).
  vm_compute. reflexivity.
Defined.

(** The val and test loaders do not shuffle: their dumps list the labels in
    the split's stored order; the train dump lists a permutation of the
    train labels. *)
Theorem dump_label_order X cfg e w w' :
  (trainval_phase X cfg Val e w = (w', inr tt) ->
     exists probs, csvs w' !! dump_path (save_dir cfg) "val" e =
                   Some (csv_rows (map snd (dataset X Val)) probs)) /\
  (test_pass X cfg e w = (w', inr tt) ->
     exists probs, csvs w' !! dump_path (save_dir cfg) "test" e =
                   Some (csv_rows (map snd (dataset X Test)) probs)) /\
  (trainval_phase X cfg Train e w = (w', inr tt) ->
     exists labels probs, labels ≡ₚ map snd (dataset X Train) /\
       csvs w' !! dump_path (save_dir cfg) "train" e = Some (csv_rows labels probs)).
Proof.
  assert (Hl : forall bs os, Forall2 obs_ok bs os ->
            running_labels (fold_left accumulate os running0) = map snd (concat bs)).
  { intros bs os HO. destruct (fold_accumulate os running0) as (H1 & _). rewrite H1.
    exact (proj1 (obs_concat _ _ HO)). }
  split; [|split].
  - rewrite (trainval_phase_eq X cfg Val e w).
    destruct (trainval_pass X Val e (ms w)) as [[m2 r] os] eqn:Hp.
    apply trainval_pass_facts in Hp as (HO & ->). intros H.
    apply phase_results_inv in H as (_ & auc & _ & ->). simpl.
    rewrite lookup_insert_eq, (Hl _ _ HO). unfold loader. rewrite concat_DataLoader. eauto.
  - rewrite (test_pass_eq X cfg e w).
    destruct (test_loop X e (ms w)) as [[m2 r] os] eqn:Hp.
    apply test_loop_facts in Hp as (HO & ->). intros H.
    apply phase_results_inv in H as (_ & auc & _ & ->). simpl.
    rewrite lookup_insert_eq, (Hl _ _ HO). unfold loader. rewrite concat_DataLoader. eauto.
  - rewrite (trainval_phase_eq X cfg Train e w).
    destruct (trainval_pass X Train e (ms w)) as [[m2 r] os] eqn:Hp.
    apply trainval_pass_facts in Hp as (HO & ->). intros H.
    apply phase_results_inv in H as (_ & auc & _ & ->). simpl.
    rewrite lookup_insert_eq, (Hl _ _ HO). do 2 eexists. split; [|reflexivity].
    apply Permutation_map, loader_perm.
Qed.

Lemma dump_label_order_witness :
  exists probs,
    csvs (fst (trainval_phase demo_ext (demo_cfg 0 1 true) Val 0 (set_ms (fresh_model demo_ext) demo_world)))
      !! dump_path "run/run_0" "val" 0 = Some (csv_rows [1; 0] probs).
Proof.
  apply (proj1 (dump_label_order demo_ext (demo_cfg 0 1 true) 0
                  (set_ms (fresh_model demo_ext) demo_world) _)).
  vm_compute. reflexivity.
Defined.

(** ** Checkpoint contents and the files of a run *)

Lemma val_phase_keeps_params X cfg e w w' r :
  trainval_phase X cfg Val e w = (w', r) ->
  params (ms w') = params (ms w) /\ opt (ms w') = opt (ms w).
Proof.
  rewrite (trainval_phase_eq X cfg Val e w). unfold trainval_pass.
  destruct (run_batches (trainval_step X Val) (enter_phase Val (ms w)) running0 (loader X Val e))
    as [[m2 r2] os] eqn:E.
  apply val_loop_keeps_params in E.
  intros H. apply phase_results_frame in H as [_ ->]. exact E.
Qed.

(** The checkpoint of epoch e holds the parameters and the optimizer state
    the train phase of epoch e produced (the val phase does not change
    them), whatever the test pass that follows does. *)
Theorem checkpoint_holds_trained_state X cfg e w w1 w2 w' r :
  save_epoch cfg <> 0 -> (e + 1) mod save_epoch cfg = 0 ->
  trainval_phase X cfg Train e w = (w1, inr tt) ->
  trainval_phase X cfg Val e w1 = (w2, inr tt) ->
  run_epoch X cfg e w = (w', r) ->
  ckpts w' !! ckpt_path (save_dir cfg) e = Some (mk_ckpt (e + 1) (params (ms w1)) (opt (ms w1))).
Proof.
  intros Hs Hm H1 H2 H. unfold run_epoch in H.
  rewrite (bind_inr _ _ _ _ _ H1), (bind_inr _ _ _ _ _ H2) in H.
  destruct (val_phase_keeps_params _ _ _ _ _ _ H2) as [P O].
  assert (H3 : save_checkpoint cfg e w2 =
    (set_ckpts (<[ckpt_path (save_dir cfg) e := mk_ckpt (e + 1) (params (ms w2)) (opt (ms w2))]>
                  (ckpts w2)) w2, inr tt)).
  { rewrite (save_checkpoint_eq cfg e w2 Hs), Hm. reflexivity. }
  rewrite (bind_inr _ _ _ _ _ H3) in H.
  assert (Ht : ckpts w' = ckpts (fst (save_checkpoint cfg e w2))).
  { rewrite H3. unfold maybe_test in H.
    destruct (useTest cfg); [|unfold ret in H; inversion H; subst; reflexivity].
    destruct (test_interval cfg =? 0); [unfold raise in H; inversion H; subst; reflexivity|].
    destruct (e mod test_interval cfg =? test_interval cfg - 1); [|unfold ret in H; inversion H; subst; reflexivity].
    exact (test_pass_ckpts _ _ _ _ _ _ H). }
  rewrite Ht, H3. simpl. rewrite lookup_insert_eq, P, O. reflexivity.
Qed.

Lemma checkpoint_holds_trained_state_witness :
  let X := demo_ext in let cfg := demo_cfg 0 1 true in
  let w := set_ms (fresh_model demo_ext) demo_world in
  let w1 := fst (trainval_phase X cfg Train 0 w) in
  ckpts (fst (run_epoch X cfg 0 w)) !! ckpt_path "run/run_0" 0
    = Some (mk_ckpt 1 (params (ms w1)) (opt (ms w1))).
Proof.
  intros X cfg w w1.
  apply (checkpoint_holds_trained_state X cfg 0 w w1 (fst (trainval_phase X cfg Val 0 w1)) _
           (snd (run_epoch X cfg 0 w))).
  - simpl. lia.
  - reflexivity.
  - vm_compute. reflexivity.
  - vm_compute. reflexivity.
  - apply surjective_pairing.
Defined.

Lemma string_app_prefix_suffix_inj s (e e' : nat) :
  s +:+ "_epoch_" +:+ pretty e +:+ ".csv" = s +:+ "_epoch_" +:+ pretty e' +:+ ".csv" -> e = e'.
Proof.
  intros H. apply (inj (String.append s)) in H. apply (inj (String.append "_epoch_")) in H.
  apply string_app_suffix_inj in H. by apply (inj pretty) in H.
Qed.

(** Prediction dumps of different (phase, epoch) pairs go to different
    files: no dump overwrites another phase's or another epoch's dump. *)
Theorem dump_path_inj sd ph ph' e e' :
  dump_path sd (phase_name ph) e = dump_path sd (phase_name ph') e' -> ph = ph' /\ e = e'.
Proof.
  unfold dump_path. intros H.
  apply (inj (String.append sd)) in H. apply (inj (String.append "/predictions/")) in H.
  destruct ph, ph';
    first [ split; [reflexivity | exact (string_app_prefix_suffix_inj _ _ _ H)]
          | simpl in H; discriminate H ].
Qed.

Lemma dump_path_inj_witness :
  dump_path "run/run_0" (phase_name Test) 4 = dump_path "run/run_0" (phase_name Test) 4 /\
  (Test = Test /\ 4 = 4).
Proof.
  split; [reflexivity|].
  apply (dump_path_inj "run/run_0" Test Test 4 4). reflexivity.
Defined.

Lemma files_kept_refl w : files_kept w w.
Proof. split; auto. Qed.

Lemma files_kept_trans w1 w2 w3 : files_kept w1 w2 -> files_kept w2 w3 -> files_kept w1 w3.
Proof. intros [A1 B1] [A2 B2]. split; auto. Qed.

Lemma files_kept_insert_csv w w' k c :
  ckpts w' = ckpts w -> csvs w' = <[k := c]> (csvs w) -> files_kept w w'.
Proof.
  intros Hc Hv. split; [intros k'; by rewrite Hc|].
  intros k' Hk. rewrite Hv. destruct (decide (k' = k)) as [->|N].
  - rewrite lookup_insert_eq. eauto.
  - by rewrite lookup_insert_ne by congruence.
Qed.

Lemma files_kept_same w w' : ckpts w' = ckpts w -> csvs w' = csvs w -> files_kept w w'.
Proof. intros Hc Hv. split; intros k; [by rewrite Hc | by rewrite Hv]. Qed.

Lemma phase_results_kept sd ph e size r w w' res :
  phase_results sd ph e size r w = (w', res) -> files_kept w w'.
Proof.
  intros H. destruct (phase_results_cases _ _ _ _ _ _ _ _ H) as (Hc & _ & [[Hv _] | [[c Hv] _]]).
  - by apply files_kept_same.
  - exact (files_kept_insert_csv _ _ _ _ Hc Hv).
Qed.

Lemma trainval_phase_kept X cfg ph e : preserves files_kept (trainval_phase X cfg ph e).
Proof.
  intros w w' r H. rewrite (trainval_phase_eq X cfg ph e w) in H.
  destruct (trainval_pass X ph e (ms w)) as [[m2 r2] os].
  apply phase_results_kept in H. exact (files_kept_trans _ _ _ (files_kept_same _ _ eq_refl eq_refl) H).
Qed.

Lemma save_checkpoint_kept cfg e : preserves files_kept (save_checkpoint cfg e).
Proof.
  intros w w' r H. destruct (save_epoch cfg =? 0) eqn:Z.
  - unfold save_checkpoint in H. rewrite Z in H. inversion H. apply files_kept_refl.
  - apply Nat.eqb_neq in Z. rewrite (save_checkpoint_eq cfg e w Z) in H.
    destruct ((e + 1) mod save_epoch cfg =? 0); inversion H; [|apply files_kept_refl].
    split; [|intros k; auto].
    intros k Hk. simpl. destruct (decide (k = ckpt_path (save_dir cfg) e)) as [->|N].
    + rewrite lookup_insert_eq. eauto.
    + by rewrite lookup_insert_ne by congruence.
Qed.

Lemma maybe_test_kept X cfg e : preserves files_kept (maybe_test X cfg e).
Proof.
  intros w w' r H. unfold maybe_test in H.
  destruct (useTest cfg); [|inversion H; apply files_kept_refl].
  destruct (test_interval cfg =? 0); [inversion H; apply files_kept_refl|].
  destruct (e mod test_interval cfg =? test_interval cfg - 1); [|inversion H; apply files_kept_refl].
  rewrite (test_pass_eq X cfg e w) in H. destruct (test_loop X e (ms w)) as [[m2 r2] os].
  apply phase_results_kept in H. exact (files_kept_trans _ _ _ (files_kept_same _ _ eq_refl eq_refl) H).
Qed.

Lemma maybe_test_ckpts X cfg e w w' r :
  maybe_test X cfg e w = (w', r) -> ckpts w' = ckpts w.
Proof.
  intros H. unfold maybe_test in H.
  destruct (useTest cfg); [|by inversion H].
  destruct (test_interval cfg =? 0); [by inversion H|].
  destruct (e mod test_interval cfg =? test_interval cfg - 1); [|by inversion H].
  exact (test_pass_ckpts _ _ _ _ _ _ H).
Qed.

Lemma run_epoch_kept X cfg e : preserves files_kept (run_epoch X cfg e).
Proof.
  pose proof files_kept_refl as Hr. pose proof files_kept_trans as Ht.
  unfold run_epoch.
  apply preserves_bind; auto; [apply trainval_phase_kept|intros _].
  apply preserves_bind; auto; [apply trainval_phase_kept|intros _].
  apply preserves_bind; auto; [apply save_checkpoint_kept|intros _].
  apply maybe_test_kept.
Qed.

Lemma phase_results_dump_present sd ph e size r w w' :
  phase_results sd ph e size r w = (w', inr tt) -> is_Some (csvs w' !! dump_path sd ph e).
Proof.
  intros H. apply phase_results_inv in H as (_ & auc & _ & ->). simpl.
  rewrite lookup_insert_eq. eauto.
Qed.

Lemma run_epoch_outputs X cfg e w w' :
  run_epoch X cfg e w = (w', inr tt) -> epoch_outputs_in cfg e w'.
Proof.
  unfold run_epoch. intros H.
  bind_ok H w1 H1. bind_ok H w2 H2. bind_ok H w3 H3.
  assert (K12 := trainval_phase_kept X cfg Val e _ _ _ H2).
  assert (K23 := save_checkpoint_kept cfg e _ _ _ H3).
  assert (K3 := maybe_test_kept X cfg e _ _ _ H).
  assert (Htr : is_Some (csvs w1 !! dump_path (save_dir cfg) "train" e)).
  { rewrite (trainval_phase_eq X cfg Train e w) in H1.
    destruct (trainval_pass X Train e (ms w)) as [[m2 r2] os].
    exact (phase_results_dump_present _ _ _ _ _ _ _ H1). }
  assert (Hva : is_Some (csvs w2 !! dump_path (save_dir cfg) "val" e)).
  { rewrite (trainval_phase_eq X cfg Val e w1) in H2.
    destruct (trainval_pass X Val e (ms w1)) as [[m2 r2] os].
    exact (phase_results_dump_present _ _ _ _ _ _ _ H2). }
  assert (Hs : save_epoch cfg <> 0).
  { intros Z. unfold save_checkpoint in H3. rewrite Z in H3. discriminate H3. }
  split; [apply (proj2 K3), (proj2 K23), (proj2 K12), Htr|].
  split; [apply (proj2 K3), (proj2 K23), Hva|].
  split.
  - intros Hm. rewrite (maybe_test_ckpts _ _ _ _ _ _ H).
    rewrite (save_checkpoint_eq cfg e w2 Hs), Hm in H3. inversion H3. simpl.
    rewrite lookup_insert_eq. eauto.
  - intros Hu Hm. unfold maybe_test in H. rewrite Hu in H.
    destruct (test_interval cfg =? 0) eqn:Z; [discriminate H|].
    apply Nat.eqb_neq in Z. rewrite (snapshot_condition e _ Z), Hm in H. simpl in H.
    rewrite (test_pass_eq X cfg e w3) in H.
    destruct (test_loop X e (ms w3)) as [[m2 r2] os].
    exact (phase_results_dump_present _ _ _ _ _ _ _ H).
Qed.

Lemma epoch_outputs_transfer cfg e w w' :
  epoch_outputs_in cfg e w -> files_kept w w' -> ckpts_keyed_by_epoch (save_dir cfg) w w' ->
  epoch_outputs_in cfg e w'.
Proof.
  intros (A & B & C & D) [Kc Kv] Hk.
  split; [auto|]. split; [auto|]. split.
  - intros Hm. destruct (C Hm) as (c & Hc & He).
    destruct (Kc _ (mk_is_Some _ _ Hc)) as [c' Hc'].
    exists c'. split; [exact Hc'|].
    destruct (Hk _ _ Hc') as [Hold | (e'' & Hp & He'')].
    + rewrite Hc in Hold. inversion Hold. subst. exact He.
    + apply ckpt_path_inj in Hp. subst. exact He''.
  - intros Hu Ht. auto.
Qed.

Lemma run_epochs_outputs X cfg es w w' :
  run_epochs X cfg es w = (w', inr tt) -> Forall (fun e => epoch_outputs_in cfg e w') es.
Proof.
  revert w. induction es as [|e es IH]; intros w H; simpl in H; [constructor|].
  bind_ok H w1 H1. constructor; [|exact (IH _ H)].
  apply (epoch_outputs_transfer cfg e w1 w').
  - exact (run_epoch_outputs _ _ _ _ _ H1).
  - exact (preserves_run_epochs files_kept files_kept_refl files_kept_trans X cfg es
             (run_epoch_kept X cfg) _ _ _ H).
  - exact (preserves_run_epochs _ (keyed_refl _) (keyed_trans _) X cfg es
             (run_epoch_keyed X cfg) _ _ _ H).
Qed.

(** After a successful run, every epoch e of [range(resume_epoch,
    num_epochs)] has left its train and val dumps, its test dump when the
    test pass was due, and, when (e + 1) is a multiple of the checkpoint
    interval, the checkpoint file of epoch e with epoch field e + 1: no
    later epoch removes or replaces them. *)
Theorem successful_run_outputs X cfg w w' e :
  train_model X cfg w = (w', inr tt) ->
  resume_epoch cfg <= e < num_epochs cfg ->
  epoch_outputs_in cfg e w'.
Proof.
  intros H He. unfold train_model in H.
  bind_ok H w1 H1. bind_ok H w2 H2. bind_ok H w3 H3.
  apply run_epochs_outputs in H. rewrite List.Forall_forall in H.
  apply H. apply in_seq. lia.
Qed.

Lemma successful_run_outputs_witness :
  epoch_outputs_in (demo_cfg 0 2 true) 0 (fst (train_model demo_ext (demo_cfg 0 2 true) demo_world)).
Proof.
  apply (successful_run_outputs demo_ext (demo_cfg 0 2 true) demo_world _ 0).
  - vm_compute. reflexivity.
  - simpl. lia.
Defined.

(** ** Run directory selection *)

Lemma str_compare_refl s : String.compare s s = Eq.
Proof.
  induction s as [|c s IH]; simpl; auto.
  unfold Ascii.compare. rewrite N.compare_refl. exact IH.
Qed.

Lemma str_leb_refl s : String.leb s s = true.
Proof. unfold String.leb. by rewrite str_compare_refl. Qed.

Lemma str_compare_app p a b : String.compare (p +:+ a) (p +:+ b) = String.compare a b.
Proof.
  induction p as [|c p IH]; simpl; auto.
  unfold Ascii.compare. rewrite N.compare_refl. exact IH.
Qed.

Lemma str_compare_lt_trans s1 s2 s3 :
  String.compare s1 s2 = Lt -> String.compare s2 s3 = Lt -> String.compare s1 s3 = Lt.
Proof.
  revert s2 s3; induction s1 as [|a s1 IH]; intros [|b s2] [|c s3]; simpl;
    try discriminate; auto.
  unfold Ascii.compare.
  destruct (N.compare_spec (N_of_ascii a) (N_of_ascii b)) as [Hab|Hab|Hab];
    try discriminate;
  destruct (N.compare_spec (N_of_ascii b) (N_of_ascii c)) as [Hbc|Hbc|Hbc];
    try discriminate; intros H1 H2.
  - rewrite Hab, Hbc, N.compare_refl. eauto.
  - replace (N.compare (N_of_ascii a) (N_of_ascii c)) with Lt; auto.
    symmetry. apply N.compare_lt_iff. lia.
  - replace (N.compare (N_of_ascii a) (N_of_ascii c)) with Lt; auto.
    symmetry. apply N.compare_lt_iff. lia.
  - replace (N.compare (N_of_ascii a) (N_of_ascii c)) with Lt; auto.
    symmetry. apply N.compare_lt_iff. lia.
Qed.

Lemma str_leb_trans s1 s2 s3 :
  String.leb s1 s2 = true -> String.leb s2 s3 = true -> String.leb s1 s3 = true.
Proof.
  unfold String.leb.
  destruct (String.compare s1 s2) eqn:E1; try discriminate;
  destruct (String.compare s2 s3) eqn:E2; try discriminate; intros _ _.
  - apply String.compare_eq_iff in E1, E2. subst. by rewrite str_compare_refl.
  - apply String.compare_eq_iff in E1. subst. by rewrite E2.
  - apply String.compare_eq_iff in E2. subst. by rewrite E1.
  - by rewrite (str_compare_lt_trans _ _ _ E1 E2).
Qed.

Lemma str_leb_false s1 s2 : String.leb s1 s2 = false -> String.leb s2 s1 = true.
Proof. intros H. destruct (String.leb_total s1 s2); congruence. Qed.

Lemma In_insert_str x l y : In y (insert_str x l) <-> x = y \/ In y l.
Proof.
  induction l as [|z l IH]; simpl; [tauto|].
  destruct (String.leb x z); simpl; rewrite ?IH; tauto.
Qed.

Lemma In_sorted_strs l y : In y (sorted_strs l) <-> In y l.
Proof.
  induction l as [|x l IH]; simpl; [tauto|].
  rewrite In_insert_str, IH. intuition.
Qed.

Lemma insert_str_nonnil x l : insert_str x l <> [].
Proof. destruct l; simpl; [|destruct (String.leb x s)]; discriminate. Qed.

Lemma last_cons_nonnil (z : string) l : l <> [] -> last (z :: l) = last l.
Proof. destruct l; [done|]. intros _. apply last_cons_cons. Qed.

Lemma last_insert_str x l m :
  last_is_max l -> last l = Some m ->
  last (insert_str x l) = Some (if String.leb x m then m else x).
Proof.
  revert m; induction l as [|z l IH]; intros m Hmax Hlast; [discriminate|].
  simpl. destruct (String.leb x z) eqn:Exz.
  - rewrite last_cons_cons, Hlast.
    rewrite (str_leb_trans x z m Exz (Hmax z m (or_introl eq_refl) Hlast)). done.
  - destruct l as [|z' l].
    + simpl in Hlast. injection Hlast as <-. by rewrite Exz.
    + rewrite last_cons_cons in Hlast.
      rewrite last_cons_nonnil by apply insert_str_nonnil. apply IH; auto.
      intros y m' Hy Hm'. apply (Hmax y m'); simpl in *; auto.
Qed.

Lemma insert_str_last_is_max x l : last_is_max l -> last_is_max (insert_str x l).
Proof.
  intros Hmax y m' Hy Hlast.
  destruct (last l) as [m|] eqn:Hl.
  - rewrite (last_insert_str x l m Hmax Hl) in Hlast. injection Hlast as <-.
    apply In_insert_str in Hy. destruct (String.leb x m) eqn:Exm.
    + destruct Hy as [->|Hy]; auto.
    + destruct Hy as [->|Hy]; [apply str_leb_refl|].
      apply (str_leb_trans y m x); auto using str_leb_false.
  - apply last_None in Hl. subst l. simpl in *. injection Hlast as <-.
    destruct Hy as [->|[]]. apply str_leb_refl.
Qed.

Lemma sorted_strs_last_is_max l : last_is_max (sorted_strs l).
Proof.
  induction l as [|x l IH]; simpl.
  - intros ?? [].
  - by apply insert_str_last_is_max.
Qed.

Lemma last_sorted_strs_max l m :
  In m l -> (forall y, In y l -> String.leb y m = true) ->
  last (sorted_strs l) = Some m.
Proof.
  intros Hm Hall.
  destruct (last (sorted_strs l)) as [x|] eqn:Hx.
  - f_equal. apply String.leb_antisym.
    + apply Hall, In_sorted_strs. apply last_Some in Hx as [l' Hl'].
      rewrite Hl'. apply in_or_app. right. left. done.
    + apply (sorted_strs_last_is_max l); auto. by apply In_sorted_strs.
  - apply last_None in Hx. apply In_sorted_strs in Hm. rewrite Hx in Hm. destruct Hm.
Qed.

Lemma last_sorted_strs_nil l : last (sorted_strs l) = None <-> l = [].
Proof.
  rewrite last_None. split; [|by intros ->].
  destruct l; simpl; auto. intros H. by destruct (insert_str_nonnil s (sorted_strs l)).
Qed.

Lemma str_app_assoc (a b c : string) : (a +:+ b) +:+ c = a +:+ (b +:+ c).
Proof. induction a as [|x a IH]; [done|]. exact (f_equal (String x) IH). Qed.

Lemma prefix_run_name n : String.prefix "run_" (run_name n) = true.
Proof.
  unfold run_name. destruct (pretty n);
    with_strategy transparent [String.prefix] reflexivity.
Qed.

Lemma In_glob_runs root entries g :
  In g (glob_runs root entries) <->
  exists e, g = root +:+ "/run/" +:+ e /\ In e entries /\ String.prefix "run_" e = true.
Proof.
  unfold glob_runs. rewrite in_map_iff.
  split; intros [e [He1 He2]]; exists e.
  - apply List.filter_In in He2. split; [symmetry; exact He1|tauto].
  - split; [symmetry; exact He1|]. apply List.filter_In. tauto.
Qed.

Lemma last_field_go_app s t cur :
  last_field_go (s +:+ t) cur = last_field_go t (last_field_go s cur).
Proof.
  revert cur; induction s as [|c s IH]; intros cur; [done|].
  change (String c s +:+ t) with (String c (s +:+ t)). cbn [last_field_go].
  destruct (Ascii.eqb c "_"); apply IH.
Qed.

Lemma last_field_run_path root s :
  last_field (root +:+ "/run/" +:+ "run_" +:+ s) = last_field_go s "".
Proof. unfold last_field. by rewrite last_field_go_app. Qed.

Lemma last_field_go_no_underscore s cur :
  no_underscore s -> last_field_go s cur = cur +:+ s.
Proof.
  unfold no_underscore.
  revert cur; induction s as [|c s IH]; intros cur Hs; simpl in Hs.
  - simpl. induction cur as [|x cur IHc]; [done|]. exact (f_equal (String x) IHc).
  - cbn [last_field_go]. destruct (Ascii.eqb_spec c "_"); [tauto|].
    rewrite IH by tauto. by rewrite str_app_assoc.
Qed.

Lemma str_compare_run_path root a b :
  String.compare (root +:+ "/run/" +:+ "run_" +:+ a) (root +:+ "/run/" +:+ "run_" +:+ b)
  = String.compare a b.
Proof. by rewrite !str_compare_app. Qed.

Lemma pretty_N_char_code y : (N_of_ascii (pretty_N_char y) <= 57)%N.
Proof. unfold pretty_N_char. repeat case_match; vm_compute; discriminate. Qed.

Lemma pretty_N_go_head x s :
  (0 < x)%N -> exists d t, pretty_N_go x s = String d t /\ (N_of_ascii d <= 57)%N.
Proof.
  revert s. induction (N.lt_wf_0 x) as [x _ IH]; intros s Hx.
  rewrite pretty_N_go_step by done.
  destruct (decide (x `div` 10 = 0)%N) as [E|E].
  - rewrite E, pretty_N_go_0. eexists _, _. split; [done|]. apply pretty_N_char_code.
  - apply IH; [by apply N.div_lt|apply N.neq_0_lt_0; exact E].
Qed.

Lemma pretty_nat_head (n : nat) : exists d t, pretty n = String d t /\ (N_of_ascii d <= 57)%N.
Proof.
  unfold pretty, pretty_nat, pretty, pretty_N.
  destruct (decide (N.of_nat n = 0%N)).
  - eexists _, _. split; [done|]. vm_compute. discriminate.
  - apply pretty_N_go_head. lia.
Qed.

Lemma drop_spaces_snoc l c :
  py_space c = false -> drop_spaces (l ++ [c]) = drop_spaces l ++ [c].
Proof.
  intros Hc. induction l as [|a l IH]; simpl.
  - by rewrite Hc.
  - by destruct (py_space a).
Qed.

Lemma strip_head c t : py_space c = false -> exists t', strip (c :: t) = c :: t'.
Proof.
  intros Hc. unfold strip. simpl. rewrite Hc. simpl.
  rewrite drop_spaces_snoc by done. rewrite rev_app_distr. simpl. by eexists.
Qed.

Lemma small_ids_ordered :
  forallb (fun m => forallb (fun i => String.leb (pretty i) (pretty m)) (seq 0 (S m)))
    (seq 0 10) = true.
Proof. vm_compute. reflexivity. Qed.

Lemma small_ids_parse :
  forallb (fun m => bool_decide (py_int (last_field_go (pretty m) "") = Some (Z.of_nat m)))
    (seq 0 10) = true.
Proof. vm_compute. reflexivity. Qed.

Lemma ids_below_90_ordered :
  forallb (fun i => String.leb (pretty i) (pretty 9)) (seq 0 90) = true.
Proof. vm_compute. reflexivity. Qed.

Lemma leb_small_ids i m : i <= m -> m < 10 -> String.leb (pretty i) (pretty m) = true.
Proof.
  intros Him Hm. pose proof small_ids_ordered as H.
  rewrite forallb_forall in H. specialize (H m). rewrite forallb_forall in H.
  apply H; apply in_seq; lia.
Qed.

Lemma parse_small_id m : m < 10 -> py_int (last_field_go (pretty m) "") = Some (Z.of_nat m).
Proof.
  intros Hm. pose proof small_ids_parse as H.
  rewrite forallb_forall in H. specialize (H m ltac:(apply in_seq; lia)).
  by apply bool_decide_eq_true in H.
Qed.

Lemma leb_ids_below_90 i : i < 90 -> String.leb (pretty i) (pretty 9) = true.
Proof.
  intros Hi. pose proof ids_below_90_ordered as H.
  rewrite forallb_forall in H. apply H, in_seq. lia.
Qed.

Lemma list_max_In l : l <> [] -> In (list_max l) l.
Proof.
  induction l as [|a l IH]; [done|]. intros _. simpl.
  destruct l as [|b l]; [simpl; left; lia|].
  destruct (Nat.max_spec a (list_max (b :: l))) as [[_ ->]|[_ ->]]; [right|left]; auto.
Qed.

Section run_id.
Variables (root : string) (entries : list string) (ids : list nat).
Hypothesis Hruns : forall e, In e entries -> String.prefix "run_" e = true ->
  exists i, In i ids /\ e = run_name i.
Hypothesis Hids : forall i, In i ids -> In (run_name i) entries.

Lemma glob_runs_ids g :
  In g (glob_runs root entries) -> exists i, In i ids /\ g = root +:+ "/run/" +:+ "run_" +:+ pretty i.
Proof.
  rewrite In_glob_runs. intros (e & -> & He & Hp).
  destruct (Hruns e He Hp) as (i & Hi & ->). by exists i.
Qed.

Lemma ids_glob_runs i :
  In i ids -> In (root +:+ "/run/" +:+ "run_" +:+ pretty i) (glob_runs root entries).
Proof.
  intros Hi. apply In_glob_runs. exists (run_name i). split; [done|].
  split; [by apply Hids|apply prefix_run_name].
Qed.

Lemma select_run_id_max R m :
  In m ids -> (forall i, In i ids -> String.leb (pretty i) (pretty m) = true) ->
  py_int (last_field_go (pretty m) "") = Some (Z.of_nat m) ->
  select_run_id R root entries = Some (if R =? 0 then (Z.of_nat m + 1)%Z else Z.of_nat m).
Proof.
  intros Hm Hmax Hparse. unfold select_run_id.
  rewrite (last_sorted_strs_max _ (root +:+ "/run/" +:+ "run_" +:+ pretty m)).
  - by rewrite last_field_run_path, Hparse.
  - by apply ids_glob_runs.
  - intros y Hy. apply glob_runs_ids in Hy as (i & Hi & ->).
    unfold String.leb. rewrite str_compare_run_path. apply Hmax, Hi.
Qed.

Lemma select_run_id_none R : ids = [] -> select_run_id R root entries = Some 0%Z.
Proof.
  intros Hnil. unfold select_run_id.
  destruct (last (sorted_strs (glob_runs root entries))) as [g|] eqn:Hg; [|done].
  apply last_Some_elem_of in Hg. apply list_elem_of_In, In_sorted_strs, glob_runs_ids in Hg.
  destruct Hg as (i & Hi & _). by rewrite Hnil in Hi.
Qed.
End run_id.

Lemma ascii_above_digits c :
  57 < nat_of_ascii c ->
  py_space c = false /\ digit_val c = None /\
  Ascii.eqb c "-"%char = false /\ Ascii.eqb c "+"%char = false.
Proof.
  intros Hc.
  destruct (Ascii.eqb_spec c "-"%char) as [->|_]; [vm_compute in Hc; lia|].
  destruct (Ascii.eqb_spec c "+"%char) as [->|_]; [vm_compute in Hc; lia|].
  unfold py_space, digit_val.
  rewrite (proj2 (Nat.leb_gt (nat_of_ascii c) 57)), (proj2 (Nat.leb_gt (nat_of_ascii c) 13)),
    (proj2 (Nat.leb_gt (nat_of_ascii c) 32)) by lia.
  by rewrite !andb_false_r.
Qed.

Lemma py_int_non_digit_head c s :
  57 < nat_of_ascii c -> c <> "_"%char -> py_int (String c s) = None.
Proof.
  intros Hc Hu. destruct (ascii_above_digits c Hc) as (Hsp & Hd & Hm & Hp).
  unfold py_int. change (String.list_ascii_of_string (String c s))
    with (c :: String.list_ascii_of_string s).
  destruct (strip_head c (String.list_ascii_of_string s) Hsp) as [t' ->].
  rewrite Hm, Hp. simpl. rewrite Hd.
  destruct (Ascii.eqb_spec c "_"%char); [done|]. reflexivity.
Qed.

(** For a save_dir_root without glob pattern characters: while every run
    directory is [run_0] .. [run_9] (other names in [run/]
    not starting with [run_] are ignored), a fresh run gets the largest
    existing index plus one (0 when there is none) and a resumed run reuses
    the largest index (0 when there is none). *)
Theorem run_id_counts_up_below_10 root entries ids R :
  has_magic root = false ->
  (forall e, In e entries -> String.prefix "run_" e = true -> exists i, In i ids /\ e = run_name i) ->
  (forall i, In i ids -> In (run_name i) entries) ->
  (forall i, In i ids -> i < 10) ->
  select_run_id R root entries =
    Some (if R =? 0 then (match ids with [] => 0 | _ => Z.of_nat (list_max ids) + 1 end)%Z
          else Z.of_nat (list_max ids)).
Proof.
  intros _ Hruns Hids Hsmall.
  destruct (decide (ids = [])) as [->|Hne].
  - rewrite (select_run_id_none root entries [] Hruns R eq_refl). by destruct (R =? 0).
  - assert (In (list_max ids) ids) as Hm by (by apply list_max_In).
    rewrite (select_run_id_max root entries ids Hruns Hids R (list_max ids) Hm).
    + destruct ids; [done|]. reflexivity.
    + intros i Hi. apply leb_small_ids; [|by apply Hsmall].
      pose proof (proj1 (list_max_le ids (list_max ids)) (le_n _)) as F.
      rewrite List.Forall_forall in F. by apply F.
    + apply parse_small_id, Hsmall, Hm.
Qed.

(** For a save_dir_root without glob pattern characters, the sort is
    lexicographic, not numeric: once [run_9] exists and every
    index is below 90, [run_9] sorts last, so a fresh run is given index 10
    and a resumed run index 9, whatever larger indices exist; if [run_10]
    already exists, the fresh run's [save_dir] is that existing directory. *)
Theorem run_id_after_run_9 root entries ids R :
  has_magic root = false ->
  (forall e, In e entries -> String.prefix "run_" e = true -> exists i, In i ids /\ e = run_name i) ->
  (forall i, In i ids -> In (run_name i) entries) ->
  In 9 ids -> (forall i, In i ids -> i < 90) ->
  select_run_id R root entries = Some (if R =? 0 then 10%Z else 9%Z) /\
  (In 10 ids -> In (run_dir root 10) (glob_runs root entries)).
Proof.
  intros _ Hruns Hids H9 Hbelow. split.
  - rewrite (select_run_id_max root entries ids Hruns Hids R 9 H9).
    + by destruct (R =? 0).
    + intros i Hi. by apply leb_ids_below_90, Hbelow.
    + reflexivity.
  - intros H10. exact (ids_glob_runs root entries ids Hids 10 H10).
Qed.

(** For a save_dir_root without glob pattern characters, a stray entry
    [run_<c>...] whose first character after [run_] is an
    ASCII character above '9' other than '_', with no further '_', sorts
    after every [run_<n>] directory; its last field is not an integer, so the
    script stops with a ValueError before training, fresh run or resume. *)
Theorem stray_run_entry_aborts root entries (c : ascii) (s : string) R :
  has_magic root = false ->
  (forall e, In e entries -> String.prefix "run_" e = true ->
     e = "run_" +:+ String c s \/ exists i, e = run_name i) ->
  In ("run_" +:+ String c s) entries ->
  57 < nat_of_ascii c < 128 -> c <> "_"%char -> no_underscore s ->
  select_run_id R root entries = None.
Proof.
  intros _ Hruns Hin Hc Hu Hs. unfold select_run_id.
  rewrite (last_sorted_strs_max _ (root +:+ "/run/" +:+ "run_" +:+ String c s)).
  - rewrite last_field_run_path, last_field_go_no_underscore.
    + change ("" +:+ String c s) with (String c s). by rewrite py_int_non_digit_head by (done || lia).
    + unfold no_underscore in *. simpl. intros [?|?]; auto.
  - apply In_glob_runs. eexists. split; [done|]. split; [done|].
    with_strategy transparent [String.prefix] reflexivity.
  - intros y Hy. apply In_glob_runs in Hy as (e & -> & He & Hp).
    destruct (Hruns e He Hp) as [->|[i ->]]; [apply str_leb_refl|].
    unfold String.leb, run_name. rewrite str_compare_run_path.
    destruct (pretty_nat_head i) as (d & t & -> & Hd).
    assert (N_of_ascii d < N_of_ascii c)%N as Hlt by (unfold nat_of_ascii in Hc; lia).
    cbn [String.compare]. unfold Ascii.compare.
    by rewrite (proj2 (N.compare_lt_iff _ _) Hlt).
Qed.

Lemma run_id_counts_up_below_10_witness :
  has_magic "/r" = false /\
  (forall e, In e ["run_0"; "run_3"; "notes"] -> String.prefix "run_" e = true ->
     exists i, In i [0; 3] /\ e = run_name i) /\
  (forall i, In i [0; 3] -> In (run_name i) ["run_0"; "run_3"; "notes"]) /\
  (forall i, In i [0; 3] -> i < 10) /\
  select_run_id 0 "/r" ["run_0"; "run_3"; "notes"] = Some 4%Z.
Proof.
  split; [reflexivity|].
  assert (H1 : forall e, In e ["run_0"; "run_3"; "notes"] -> String.prefix "run_" e = true ->
     exists i, In i [0; 3] /\ e = run_name i).
  { intros e [<-|[<-|[<-|[]]]] Hp; [exists 0 | exists 3 | vm_compute in Hp; discriminate];
      (split; [simpl; auto | reflexivity]). }
  assert (H2 : forall i, In i [0; 3] -> In (run_name i) ["run_0"; "run_3"; "notes"]).
  { intros i [<-|[<-|[]]]; simpl; auto. }
  assert (H3 : forall i, In i [0; 3] -> i < 10) by (intros i [<-|[<-|[]]]; lia).
  split; [exact H1|]. split; [exact H2|]. split; [exact H3|].
  exact (run_id_counts_up_below_10 "/r" _ _ 0 eq_refl H1 H2 H3).
Defined.

Lemma run_id_after_run_9_witness :
  has_magic "/r" = false /\
  select_run_id 0 "/r" (map run_name (seq 0 11)) = Some 10%Z /\
  In (run_dir "/r" 10) (glob_runs "/r" (map run_name (seq 0 11))).
Proof.
  split; [reflexivity|].
  assert (H1 : forall e, In e (map run_name (seq 0 11)) -> String.prefix "run_" e = true ->
     exists i, In i (seq 0 11) /\ e = run_name i).
  { intros e He _. apply in_map_iff in He as (i & <- & Hi). by exists i. }
  assert (H2 : forall i, In i (seq 0 11) -> In (run_name i) (map run_name (seq 0 11)))
    by (intros i Hi; by apply in_map).
  assert (H9 : In 9 (seq 0 11)) by (apply in_seq; lia).
  assert (H4 : forall i, In i (seq 0 11) -> i < 90) by (intros i Hi; apply in_seq in Hi; lia).
  assert (H10 : In 10 (seq 0 11)) by (apply in_seq; lia).
  destruct (run_id_after_run_9 "/r" _ _ 0 eq_refl H1 H2 H9 H4) as [Hsel Hdir].
  split; [exact Hsel | exact (Hdir H10)].
Defined.

Lemma stray_run_entry_aborts_witness :
  has_magic "/r" = false /\
  (forall e, In e ["run_0"; "run_1"; "run_old"] -> String.prefix "run_" e = true ->
     e = "run_" +:+ String "o" "ld" \/ exists i, e = run_name i) /\
  In ("run_" +:+ String "o" "ld") ["run_0"; "run_1"; "run_old"] /\
  (57 < nat_of_ascii "o" < 128) /\ "o"%char <> "_"%char /\ no_underscore "ld" /\
  select_run_id 0 "/r" ["run_0"; "run_1"; "run_old"] = None.
Proof.
  split; [reflexivity|].
  assert (H1 : forall e, In e ["run_0"; "run_1"; "run_old"] -> String.prefix "run_" e = true ->
     e = "run_" +:+ String "o" "ld" \/ exists i, e = run_name i).
  { intros e [<-|[<-|[<-|[]]]] _;
      [right; exists 0; reflexivity | right; exists 1; reflexivity | left; reflexivity]. }
  assert (H2 : In ("run_" +:+ String "o" "ld") ["run_0"; "run_1"; "run_old"])
    by (simpl; auto).
  assert (H3 : 57 < nat_of_ascii "o" < 128)
    by (split; apply Nat.ltb_lt; vm_compute; reflexivity).
  assert (H4 : "o"%char <> "_"%char) by discriminate.
  assert (H5 : no_underscore "ld") by (intros [H|[H|[]]]; discriminate).
  do 5 (split; [assumption|]).
  exact (stray_run_entry_aborts "/r" _ "o" "ld" 0 eq_refl H1 H2 H3 H4 H5).
Defined.


Lemma pretty_N_go_app x s : pretty_N_go x s = pretty_N_go x "" +:+ s.
Proof.
  revert s. induction (N.lt_wf_0 x) as [x _ IH]; intros s.
  destruct (decide (x = 0%N)) as [->|Hx]; [by rewrite !pretty_N_go_0|].
  rewrite !(pretty_N_go_step x) by lia.
  assert (Hlt : (x `div` 10 < x)%N) by (apply N.div_lt; lia).
  rewrite (IH _ Hlt (String _ s)), (IH _ Hlt (String _ "")), str_app_assoc. done.
Qed.

Lemma list_ascii_of_string_app a b :
  String.list_ascii_of_string (a +:+ b) = String.list_ascii_of_string a ++ String.list_ascii_of_string b.
Proof. induction a as [|c a IH]; [done|]. exact (f_equal (cons c) IH). Qed.

Lemma digit_val_pretty_N_char y : (y < 10)%N -> digit_val (pretty_N_char y) = Some (N.to_nat y).
Proof.
  intros Hy.
  assert (y = 0 \/ y = 1 \/ y = 2 \/ y = 3 \/ y = 4 \/ y = 5 \/ y = 6 \/ y = 7 \/ y = 8 \/ y = 9)%N
    as Hc by lia.
  repeat destruct Hc as [->|Hc]; try reflexivity. subst. reflexivity.
Qed.

Lemma pretty_N_go_digits x :
  Forall (fun c => is_Some (digit_val c)) (String.list_ascii_of_string (pretty_N_go x "")) /\
  fold_left digit_step (String.list_ascii_of_string (pretty_N_go x "")) 0%Z = Z.of_N x.
Proof.
  induction (N.lt_wf_0 x) as [x _ IH].
  destruct (decide (x = 0%N)) as [->|Hx]; [split; [constructor|done]|].
  rewrite pretty_N_go_step by lia. rewrite pretty_N_go_app, list_ascii_of_string_app.
  assert (Hlt : (x `div` 10 < x)%N) by (apply N.div_lt; lia).
  destruct (IH _ Hlt) as [Hd Hv].
  assert (Hm : digit_val (pretty_N_char (x `mod` 10)) = Some (N.to_nat (x `mod` 10)))
    by (apply digit_val_pretty_N_char, N.mod_lt; lia).
  split.
  - apply Forall_app. split; [done|]. simpl. constructor; [by rewrite Hm|constructor].
  - rewrite fold_left_app, Hv. simpl. unfold digit_step. rewrite Hm.
    pose proof (N.div_mod x 10). lia.
Qed.

Lemma digits_val_all_digits l acc b :
  l <> [] -> Forall (fun c => is_Some (digit_val c)) l ->
  digits_val l acc b = Some (fold_left digit_step l acc).
Proof.
  revert acc b. induction l as [|c l IH]; intros acc b Hne Hall; [done|].
  inversion Hall as [|? ? [d Hd] Hl]; subst. simpl. rewrite Hd.
  assert (Hs : digit_step acc c = (acc * 10 + Z.of_nat d)%Z) by (unfold digit_step; by rewrite Hd).
  rewrite Hs. destruct l as [|c' l]; [done|]. by apply IH.
Qed.

Lemma digit_not_space c : is_Some (digit_val c) -> py_space c = false.
Proof.
  unfold digit_val, py_space. intros [d Hd].
  destruct ((48 <=? nat_of_ascii c) && (nat_of_ascii c <=? 57)) eqn:E; [|discriminate].
  apply andb_true_iff in E as [E1 E2]. apply Nat.leb_le in E1.
  rewrite (proj2 (Nat.leb_gt (nat_of_ascii c) 13)), (proj2 (Nat.leb_gt (nat_of_ascii c) 32)) by lia.
  by rewrite !andb_false_r.
Qed.

Lemma drop_spaces_digits l :
  Forall (fun c => is_Some (digit_val c)) l -> drop_spaces l = l.
Proof. destruct l as [|c l]; [done|]. inversion 1; subst. simpl. by rewrite digit_not_space. Qed.

Lemma digit_not_sign c : is_Some (digit_val c) ->
  Ascii.eqb c "-"%char = false /\ Ascii.eqb c "+"%char = false /\ c <> "_"%char.
Proof.
  intros Hd. repeat split.
  - destruct (Ascii.eqb_spec c "-"%char) as [->|]; [by destruct Hd|done].
  - destruct (Ascii.eqb_spec c "+"%char) as [->|]; [by destruct Hd|done].
  - intros ->. by destruct Hd.
Qed.

Lemma py_int_pretty (n : nat) : py_int (last_field_go (pretty n) "") = Some (Z.of_nat n).
Proof.
  change (pretty n) with (if decide (N.of_nat n = 0%N) then "0" else pretty_N_go (N.of_nat n) "").
  destruct (decide (N.of_nat n = 0%N)) as [E|E].
  - assert (n = 0) as -> by lia. reflexivity.
  - destruct (pretty_N_go_digits (N.of_nat n)) as [Hd Hv].
    rewrite last_field_go_no_underscore.
    + change ("" +:+ pretty_N_go (N.of_nat n) "") with (pretty_N_go (N.of_nat n) "").
      unfold py_int, strip.
      rewrite (drop_spaces_digits _ Hd), (drop_spaces_digits (rev _)), rev_involutive
        by (by apply Forall_rev).
      destruct (String.list_ascii_of_string (pretty_N_go (N.of_nat n) "")) as [|c t] eqn:Hl.
      * simpl in Hv. lia.
      * inversion Hd as [|? ? Hc Ht]; subst.
        destruct (digit_not_sign c Hc) as (-> & -> & _).
        rewrite digits_val_all_digits by done. rewrite Hv. f_equal. lia.
    + unfold no_underscore. intros Hu. rewrite List.Forall_forall in Hd.
      destruct (digit_not_sign _ (Hd _ Hu)) as (_ & _ & H). by apply H.
Qed.

(** For a save_dir_root without glob pattern characters and [run_k] the
    only run directory, for any k, a fresh run gets index
    k + 1 and a resumed run index k: [int(str(k))] gives k back. *)
Theorem run_id_single_run root entries k R :
  has_magic root = false ->
  (forall e, In e entries -> String.prefix "run_" e = true -> e = run_name k) ->
  In (run_name k) entries ->
  select_run_id R root entries = Some (if R =? 0 then (Z.of_nat k + 1)%Z else Z.of_nat k).
Proof.
  intros _ Hruns Hin.
  apply (select_run_id_max root entries [k]).
  - intros e He Hp. exists k. split; [left; done|]. by apply Hruns.
  - intros i [<-|[]]. done.
  - by left.
  - intros i [<-|[]]. apply str_leb_refl.
  - apply py_int_pretty.
Qed.

Lemma run_id_single_run_witness :
  has_magic "/r" = false /\
  (forall e, In e ["run_123"; "notes"] -> String.prefix "run_" e = true -> e = run_name 123) /\
  In (run_name 123) ["run_123"; "notes"] /\
  select_run_id 0 "/r" ["run_123"; "notes"] = Some 124%Z.
Proof.
  split; [reflexivity|].
  assert (H1 : forall e, In e ["run_123"; "notes"] -> String.prefix "run_" e = true ->
    e = run_name 123).
  { intros e [<-|[<-|[]]] Hp; [reflexivity|vm_compute in Hp; discriminate]. }
  assert (H2 : In (run_name 123) ["run_123"; "notes"]) by (left; reflexivity).
  split; [exact H1|]. split; [exact H2|].
  exact (run_id_single_run "/r" _ 123 0 eq_refl H1 H2).
Defined.
